(** * Cross-view ray correspondence: [find_multiview_track.cpp]

    A shallow embedding of the track calibrator, the ray extent search and
    the multiview track builder of [src/find_multiview_track.cpp], and the
    properties of them that the specification states.

    C++ [double] is IEEE 754 binary64, which is what Rocq's primitive
    [float] is: every definition that the program runs on doubles is run
    here on [float].  OpenCV's value types are templates over their scalar;
    the linear algebra is written over a scalar interface in the same way,
    and the program uses it at [double] only. *)

From Stdlib Require Import ZArith List String Bool Floats Lia.
From Stdlib Require Import Sorted.
Import ListNotations.

Set Implicit Arguments.

(** ** Scalars *)

Class Scalar (T : Type) : Type := {
  zero : T;
  one : T;
  add : T -> T -> T;
  sub : T -> T -> T;
  mul : T -> T -> T;
  div : T -> T -> T;
  opp : T -> T
}.

Declare Scope scalar_scope.
Delimit Scope scalar_scope with S.
Infix "+" := add : scalar_scope.
Infix "-" := sub : scalar_scope.
Infix "*" := mul : scalar_scope.
Infix "/" := div : scalar_scope.
Notation "- x" := (opp x) : scalar_scope.

(** C++ [double]. *)
Definition double : Type := float.

#[export] Instance double_scalar : Scalar double := {
  zero := 0%float;
  one := 1%float;
  add := PrimFloat.add;
  sub := PrimFloat.sub;
  mul := PrimFloat.mul;
  div := PrimFloat.div;
  opp := PrimFloat.opp
}.

(** ** OpenCV value types

    [cv::Point_<T>], [cv::Point3_<T>] and the fixed shapes of [cv::Mat] that
    the program uses: 3x1 and 4x1 columns, 3x3 and 3x4 matrices (by rows). *)

Record Point_ (T : Type) : Type := Point2 { pt_x : T; pt_y : T }.
Record Point3_ (T : Type) : Type := Point3 { p3_x : T; p3_y : T; p3_z : T }.
Record Vec3 (T : Type) : Type := Col3 { v3_0 : T; v3_1 : T; v3_2 : T }.
Record Vec4 (T : Type) : Type :=
  Col4 { v4_0 : T; v4_1 : T; v4_2 : T; v4_3 : T }.
Record Mat33 (T : Type) : Type :=
  Rows33 { m33_0 : Vec3 T; m33_1 : Vec3 T; m33_2 : Vec3 T }.
Record Mat34 (T : Type) : Type :=
  Rows34 { m34_0 : Vec4 T; m34_1 : Vec4 T; m34_2 : Vec4 T }.

Definition Point2d : Type := Point_ double.
Definition Point3d : Type := Point3_ double.

Section LinearAlgebra.
Context {T : Type} `{Scalar T}.
Local Open Scope scalar_scope.

Definition vadd (a b : Vec3 T) : Vec3 T :=
  Col3 (v3_0 a + v3_0 b) (v3_1 a + v3_1 b) (v3_2 a + v3_2 b).

Definition vsub (a b : Vec3 T) : Vec3 T :=
  Col3 (v3_0 a - v3_0 b) (v3_1 a - v3_1 b) (v3_2 a - v3_2 b).

Definition vscale (k : T) (a : Vec3 T) : Vec3 T :=
  Col3 (k * v3_0 a) (k * v3_1 a) (k * v3_2 a).

Definition vneg (a : Vec3 T) : Vec3 T :=
  Col3 (- v3_0 a) (- v3_1 a) (- v3_2 a).

Definition dot3 (a b : Vec3 T) : T :=
  v3_0 a * v3_0 b + v3_1 a * v3_1 b + v3_2 a * v3_2 b.

Definition dot4 (a b : Vec4 T) : T :=
  v4_0 a * v4_0 b + v4_1 a * v4_1 b + v4_2 a * v4_2 b + v4_3 a * v4_3 b.

(** [cv::Mat::cross] on two 3-vectors. *)
Definition cross (a b : Vec3 T) : Vec3 T :=
  Col3 (v3_1 a * v3_2 b - v3_2 a * v3_1 b)
       (v3_2 a * v3_0 b - v3_0 a * v3_2 b)
       (v3_0 a * v3_1 b - v3_1 a * v3_0 b).

(** Matrix times column, each entry accumulated left to right. *)
Definition mul33 (M : Mat33 T) (x : Vec3 T) : Vec3 T :=
  Col3 (dot3 (m33_0 M) x) (dot3 (m33_1 M) x) (dot3 (m33_2 M) x).

Definition mul34 (M : Mat34 T) (x : Vec4 T) : Vec3 T :=
  Col3 (dot4 (m34_0 M) x) (dot4 (m34_1 M) x) (dot4 (m34_2 M) x).

Definition point3_to_vec (p : Point3_ T) : Vec3 T :=
  Col3 (p3_x p) (p3_y p) (p3_z p).

(** Modelled from the spec: the homogeneous conversions of [util.hpp],
    which is not among the sources.  A pixel gets weight one; a homogeneous
    image point is re-normalized by its third entry; a world point gets the
    given weight (one for a point, zero for a direction). *)
Definition imagePointToHomogeneous (x : Point_ T) : Vec3 T :=
  Col3 (pt_x x) (pt_y x) one.

Definition imagePointFromHomogeneous (X : Vec3 T) : Point_ T :=
  Point2 (v3_0 X / v3_2 X) (v3_1 X / v3_2 X).

Definition worldPointToHomogeneous (x : Point3_ T) (weight : T) : Vec4 T :=
  Col4 (p3_x x) (p3_y x) (p3_z x) weight.

(** Modelled from the spec: [CameraPose] of [camera_pose.hpp], which is not
    among the sources: a rotation and a camera center, with the 3x4 matrix
    [R | t] whose translation is [t = -R * center]. *)
Record CameraPose : Type := {
  rotation : Mat33 T;
  center : Point3_ T
}.

Definition CameraPose_matrix (pose : CameraPose) : Mat34 T :=
  let R := rotation pose in
  let t := vneg (mul33 R (point3_to_vec (center pose))) in
  Rows34
    (Col4 (v3_0 (m33_0 R)) (v3_1 (m33_0 R)) (v3_2 (m33_0 R)) (v3_0 t))
    (Col4 (v3_0 (m33_1 R)) (v3_1 (m33_1 R)) (v3_2 (m33_1 R)) (v3_1 t))
    (Col4 (v3_0 (m33_2 R)) (v3_1 (m33_2 R)) (v3_2 (m33_2 R)) (v3_2 t)).

(** Lines 110-116 of [findExtentOfRay]:
    [A = R.rowRange(0, 2) - cv::Mat(w) * R.rowRange(2, 3)] is the 2x3
    matrix whose row [i] is row [i] of [R] minus [w_i] times row 2, and
    [V = -A.row(0).t().cross(A.row(1).t())]. *)
Definition projectionSystem (R : Mat33 T) (w : Point_ T) : Vec3 T * Vec3 T :=
  (vsub (m33_0 R) (vscale (pt_x w) (m33_2 R)),
   vsub (m33_1 R) (vscale (pt_y w) (m33_2 R))).

Definition rayDirection (R : Mat33 T) (w : Point_ T) : Point3_ T :=
  let A := projectionSystem R w in
  let V := vneg (cross (fst A) (snd A)) in
  Point3 (v3_0 V) (v3_1 V) (v3_2 V).

(** The two homogeneous images [A = P * C] and [B = P * V] of the ray in
    another camera (lines 124-129). *)
Definition rayImage (P : Mat34 T) (c v : Point3_ T) : Vec3 T * Vec3 T :=
  let C := worldPointToHomogeneous c one in
  let V := worldPointToHomogeneous v zero in
  (mul34 P C, mul34 P V).

(** [A + lambda * B]. *)
Definition rayPoint (A B : Vec3 T) (lambda : T) : Vec3 T :=
  vadd A (vscale lambda B).
End LinearAlgebra.

Arguments CameraPose T : clear implicits.

(** ** Cameras *)

(** Modelled from the spec: [CameraProperties] of [camera_properties.hpp],
    which is not among the sources: the calibration matrix and the single
    distortion parameter [distort_w]. *)
Record CameraProperties : Type := {
  matrix : Mat33 double;
  distort_w : double
}.

(** Modelled from the spec: [Camera] of [camera.hpp], which is not among the
    sources: intrinsics and extrinsics. *)
Record Camera : Type := {
  intrinsics : CameraProperties;
  extrinsics : CameraPose double
}.

(** Lines 26-29. *)
Record OtherView : Type := {
  index : Z;
  camera : Camera
}.

(** Lines 81-83. *)
Definition extractCameraFromOtherView (view : OtherView) : Camera :=
  camera view.

(** [cv::norm] of a [cv::Point2d]. *)
Definition norm (p : Point2d) : double :=
  PrimFloat.sqrt (pt_x p * pt_x p + pt_y p * pt_y p)%float.

(** [x - y] on [cv::Point2d]. *)
Definition psub (x y : Point2d) : Point2d :=
  Point2 (pt_x x - pt_x y)%float (pt_y x - pt_y y)%float.

(** ** Tracks

    [Track<T>] is a [std::map<int, T>] from frame index to observation.  It
    is kept as the list of its entries in iteration order, which for a
    [std::map] is strictly increasing in the key. *)

Definition Track (T : Type) : Type := list (Z * T).
Definition TrackList (T : Type) : Type := list (Track T).

Definition frames {T : Type} (t : Track T) : list Z := List.map fst t.

(** The [std::map] invariant. *)
Definition is_track {T : Type} (t : Track T) : Prop :=
  StronglySorted Z.lt (frames t).

Section MapInsertion.
Context {T : Type}.

(** [std::map::insert]: the entry goes to its place in key order, and an
    entry whose key is already present is left as it is. *)
Fixpoint map_insert (kv : Z * T) (m : Track T) : Track T :=
  match m with
  | [] => [kv]
  | kv' :: m' =>
      match (fst kv ?= fst kv')%Z with
      | Lt => kv :: m
      | Eq => m
      | Gt => kv' :: map_insert kv m'
      end
  end.

(** [std::transform(first, last, std::inserter(dst, dst.begin()), f)]. *)
Definition transform_into {S : Type} (f : Z * S -> Z * T)
    (src : Track S) (dst : Track T) : Track T :=
  fold_left (fun acc kv => map_insert (f kv) acc) src dst.

(** [std::remove_copy_if(first, last, std::inserter(dst, dst.begin()), pred)]:
    the entries on which [pred] is false are copied. *)
Definition remove_copy_if_into (pred : Z * T -> bool)
    (src : Track T) (dst : Track T) : Track T :=
  fold_left (fun acc kv => if pred kv then acc else map_insert kv acc)
    src dst.
End MapInsertion.

(** ** The track calibrator (lines 31-77) *)

Section TrackCalibrator.
(** The distortion model of [distortion.hpp] and OpenCV's matrix inverse
    are not among the sources; the calibrator is written over them. *)
Variable isUndistortable : Point2d -> double -> bool.
Variable undistort : Point2d -> double -> Point2d.
Variable inv : Mat33 double -> Mat33 double.

Definition calibrateIndexedPoint (K_inv : Mat33 double)
    (point : Z * Point2d) : Z * Point2d :=
  let x := snd point in
  let X := imagePointToHomogeneous x in
  let Y := mul33 K_inv X in
  let y := imagePointFromHomogeneous Y in
  (fst point, y).

Definition indexedPointIsNotUndistortable (w : double)
    (point : Z * Point2d) : bool :=
  negb (isUndistortable (snd point) w).

Definition undistortIndexedPoint (w : double)
    (point : Z * Point2d) : Z * Point2d :=
  (fst point, undistort (snd point) w).

(** The three containers of [calibrateAndUndistortTrack], in the order in
    which they are filled. *)
Definition calibratedPoints (track : Track Point2d)
    (intr : CameraProperties) : Track Point2d :=
  let K_inv := inv (matrix intr) in
  transform_into (calibrateIndexedPoint K_inv) track [].

Definition validPoints (track : Track Point2d)
    (intr : CameraProperties) : Track Point2d :=
  remove_copy_if_into (indexedPointIsNotUndistortable (distort_w intr))
    (calibratedPoints track intr) [].

Definition calibrateAndUndistortTrack (track : Track Point2d)
    (intr : CameraProperties) : Track Point2d :=
  let valid := validPoints track intr in
  transform_into (undistortIndexedPoint (distort_w intr)) valid [].
End TrackCalibrator.

(** ** Outcomes

    A run of the program ends normally, or is aborted (a failed glog [CHECK],
    or an exception that nothing catches), or is still inside one of its
    [while] loops when the fuel of the model is spent. *)

Inductive outcome (A : Type) : Type :=
| Done (a : A)
| Fatal (msg : string)
| OutOfFuel.

Arguments Fatal {A} msg.
Arguments OutOfFuel {A}.

Definition bind {A B : Type} (c : outcome A) (k : A -> outcome B)
    : outcome B :=
  match c with
  | Done a => k a
  | Fatal msg => Fatal msg
  | OutOfFuel => OutOfFuel
  end.

Notation "x <- c ;; k" := (bind c (fun x => k))
  (at level 61, c at next level, right associativity).

(** ** The ray extent search (lines 85-232) *)

(** Modelled from the spec: [CameraProperties::uncalibrate] of
    [camera_properties.hpp], which is not among the sources: the calibration
    matrix applied to the homogeneous point, re-normalized. *)
Definition uncalibrate (intr : CameraProperties) (x : Point2d) : Point2d :=
  imagePointFromHomogeneous (mul33 (matrix intr) (imagePointToHomogeneous x)).

(** What the search leaves behind for one other camera: nothing when the ray
    is not observed ([continue] at line 143), else the vector [lambdas]. *)
Inductive ViewResult : Type :=
| NotObserved
| QuantizedRay (lambdas : list double).

Definition candidateLambdas (r : ViewResult) : list double :=
  match r with
  | NotObserved => []
  | QuantizedRay lambdas => lambdas
  end.

(** The one [LOG(INFO)] line of the search, line 230.  The [DLOG] lines are
    compiled out of a release build and are not recorded. *)
Inductive LogRecord : Type :=
| QuantizedInto (positions : nat).

Definition logOfView (r : ViewResult) : list LogRecord :=
  match r with
  | NotObserved => []
  | QuantizedRay lambdas => [QuantizedInto (List.length lambdas)]
  end.

Section RayExtentSearch.
(** [distort] and [distortPointAtInfinity] of [distortion.hpp] are not
    among the sources.  [bisect f min max bits] is
    [boost::math::tools::bisect(f, min, max, eps_tolerance<double>(bits))];
    [None] is the exception Boost raises on a bracket it refuses. *)
Variable distort : Point2d -> double -> Point2d.
Variable distortPointAtInfinity : Point2d -> double -> Point2d.
Variable bisect :
  (double -> double) -> double -> double -> Z -> option (double * double).

(** Modelled from the spec: [CameraProperties::distortAndUncalibrate],
    distortion followed by intrinsic uncalibration. *)
Definition distortAndUncalibrate (intr : CameraProperties) (x : Point2d)
    : Point2d :=
  uncalibrate intr (distort x (distort_w intr)).

(** The pixel at which the other camera sees the ray at [lambda]
    (lines 91-93 and again 222-224). *)
Definition pixelAt (intr : CameraProperties) (A B : Vec3 double)
    (lambda : double) : Point2d :=
  let X := rayPoint A B lambda in
  let x := imagePointFromHomogeneous X in
  distortAndUncalibrate intr x.

(** Lines 85-95. *)
Definition errorInDistanceFromPoint (y : Point2d) (lambda : double)
    (A B : Vec3 double) (delta : double) (intr : CameraProperties)
    : double :=
  let X := rayPoint A B lambda in
  let x := imagePointFromHomogeneous X in
  let x := distortAndUncalibrate intr x in
  (norm (psub x y) - delta)%float.

(** Lines 97-99. *)
Definition toleranceIsOk (x y epsilon : double) : bool :=
  (PrimFloat.abs (x - y) <? epsilon)%float.

(** The doubling loop, lines 171-180: [lambda] is doubled once more after
    the residual has turned negative. *)
Fixpoint findLargeLambda (fuel : nat) (x : Point2d) (A B : Vec3 double)
    (delta : double) (intr : CameraProperties) (lambda : double)
    : outcome double :=
  match fuel with
  | O => OutOfFuel
  | S fuel' =>
      let error := errorInDistanceFromPoint x lambda A B delta intr in
      if (error <? 0)%float then Done (lambda * 2)%float
      else findLargeLambda fuel' x A B delta intr (lambda * 2)%float
  end.

(** The quantization loop, lines 193-228. *)
Fixpoint quantizeRay (fuel : nat) (A B : Vec3 double) (delta : double)
    (intr : CameraProperties) (lambda_min lambda : double) (x : Point2d)
    (lambdas : list double) : outcome (list double) :=
  match fuel with
  | O => OutOfFuel
  | S fuel' =>
      let f_max := errorInDistanceFromPoint x lambda_min A B delta intr in
      if (f_max <? 0)%float then Done lambdas
      else
        let old_lambda := lambda in
        match bisect (fun l => errorInDistanceFromPoint x l A B delta intr)
                lambda_min lambda 16%Z with
        | None => Fatal "boost::math::evaluation_error"
        | Some interval =>
            let lambda := snd interval in
            if (lambda =? old_lambda)%float
            then Fatal "Check failed: lambda != old_lambda Entered limit cycle"
            else
              let lambdas := lambdas ++ [lambda] in
              let X := rayPoint A B lambda in
              let x := imagePointFromHomogeneous X in
              let x := distortAndUncalibrate intr x in
              quantizeRay fuel' A B delta intr lambda_min lambda x lambdas
        end
  end.

(** Lines 162-191: the far end of the visible range, as the upper bracket
    [lambda] and the pixel [x] the ray has there. *)
Definition findAnchor (fuel : nat) (intr : CameraProperties)
    (A B : Vec3 double) (delta : double) : outcome (double * Point2d) :=
  let a3 := v3_2 A in
  let b3 := v3_2 B in
  if (b3 <? 0)%float then
    if (v3_2 B =? 0)%float
    then Fatal "Check failed: B.at<double>(2, 0) != 0"
    else
      let x := imagePointFromHomogeneous B in
      let x := distortAndUncalibrate intr x in
      lambda <- findLargeLambda fuel x A B delta intr 1%float ;;
      Done (lambda, x)
  else
    let lambda := (- a3 / b3)%float in
    let X := rayPoint A B lambda in
    let x := Point2 (v3_0 X) (v3_1 X) in
    let x := distortPointAtInfinity x (distort_w intr) in
    let x := uncalibrate intr x in
    Done (lambda, x).

(** The body of the loop over the other cameras, lines 124-230. *)
Definition searchView (fuel : nat) (c v : Point3d) (other : Camera)
    : outcome ViewResult :=
  let P := CameraPose_matrix (extrinsics other) in
  let AB := rayImage P c v in
  let A := fst AB in
  let B := snd AB in
  let a3 := v3_2 A in
  let b3 := v3_2 B in
  if ((0 <? a3) && (0 <? b3))%float then Done NotObserved
  else
    let delta := 1%float in
    let lambda_min := if (a3 <? 0)%float then 0%float else (- a3 / b3)%float in
    anchor <- findAnchor fuel (intrinsics other) A B delta ;;
    lambdas <- quantizeRay fuel A B delta (intrinsics other) lambda_min
                 (fst anchor) (snd anchor) [] ;;
    Done (QuantizedRay lambdas).

Fixpoint searchViews (fuel : nat) (c v : Point3d) (others : list Camera)
    : outcome (list LogRecord) :=
  match others with
  | [] => Done []
  | other :: rest =>
      r <- searchView fuel c v other ;;
      log <- searchViews fuel c v rest ;;
      Done (logOfView r ++ log)
  end.

(** Lines 102-232.  The function returns [void]: what a run leaves behind
    is its log. *)
Definition findExtentOfRay (fuel : nat) (projection : Point2d)
    (pose : CameraPose double) (others : list Camera)
    : outcome (list LogRecord) :=
  let w := projection in
  let c := center pose in
  let v := rayDirection (rotation pose) w in
  searchViews fuel c v others.
End RayExtentSearch.

(** ** The multiview track builder (lines 234-272) *)

(** Modelled from the spec: [MultiviewTrack] and [MultiviewTrackList] of
    [multiview_track.hpp] and [multiview_track_list.hpp], which are not among
    the sources: a multiview track has one track per view and is constructed
    with every view empty; a list of them remembers its number of views.
    The program counts views in [int]; the counts here are natural numbers,
    which agree with it for as many views as an [int] can count. *)
Definition MultiviewTrack (T : Type) : Type := list (Track T).

Definition MultiviewTrack_new (T : Type) (num_views : nat) : MultiviewTrack T :=
  repeat [] num_views.

Record MultiviewTrackList (T : Type) : Type := {
  num_views : nat;
  multiview_tracks : list (MultiviewTrack T)
}.

Definition MultiviewTrackList_new (T : Type) (n : nat) : MultiviewTrackList T :=
  {| num_views := n; multiview_tracks := [] |}.

Definition push_back {T : Type} (l : MultiviewTrackList T)
    (t : MultiviewTrack T) : MultiviewTrackList T :=
  {| num_views := num_views l;
     multiview_tracks := multiview_tracks l ++ [t] |}.

Section MultiviewTrackBuilder.
Variable distort : Point2d -> double -> Point2d.
Variable distortPointAtInfinity : Point2d -> double -> Point2d.
Variable bisect :
  (double -> double) -> double -> double -> Z -> option (double * double).

(** The loop of lines 248-251 over the points of the track. *)
Fixpoint searchPoints (fuel : nat) (pose : CameraPose double)
    (other_cameras : list Camera) (points : Track Point2d)
    : outcome (list LogRecord) :=
  match points with
  | [] => Done []
  | point :: rest =>
      log <- findExtentOfRay distort distortPointAtInfinity bisect fuel
               (snd point) pose other_cameras ;;
      log' <- searchPoints fuel pose other_cameras rest ;;
      Done (log ++ log')
  end.

(** Lines 234-252.  [multiview_track] is an output parameter: the pair is
    its value on return and the log of the run. *)
Definition findMultiviewTrack (fuel : nat) (track : Track Point2d)
    (pose : CameraPose double) (other_views : list OtherView)
    : outcome (MultiviewTrack Point2d * list LogRecord) :=
  let num_other_views := List.length other_views in
  let num_views := (num_other_views + 1)%nat in
  let multiview_track := MultiviewTrack_new Point2d num_views in
  let other_cameras := List.map extractCameraFromOtherView other_views in
  log <- searchPoints fuel pose other_cameras track ;;
  Done (multiview_track, log).

(** The loop of lines 262-271 over the tracks. *)
Fixpoint buildTracks (fuel : nat) (pose : CameraPose double)
    (other_views : list OtherView) (tracks : TrackList Point2d)
    (acc : MultiviewTrackList Point2d * list LogRecord)
    : outcome (MultiviewTrackList Point2d * list LogRecord) :=
  match tracks with
  | [] => Done acc
  | track :: rest =>
      r <- findMultiviewTrack fuel track pose other_views ;;
      buildTracks fuel pose other_views rest
        (push_back (fst acc) (fst r), snd acc ++ snd r)
  end.

(** Lines 254-272. *)
Definition findMultiviewTracks (fuel : nat) (tracks : TrackList Point2d)
    (pose : CameraPose double) (other_views : list OtherView)
    : outcome (MultiviewTrackList Point2d * list LogRecord) :=
  let num_views := (List.length other_views + 1)%nat in
  buildTracks fuel pose other_views tracks
    (MultiviewTrackList_new Point2d num_views, []).
End MultiviewTrackBuilder.

(** ** Test fixtures

    A lens, a matrix inverse and a root finder on which the program can be
    run. *)

Module Fixture.
Local Open Scope float_scope.

(** A one-parameter radial lens whose distorted radius is the rational
    function [r / (1 + w r)] of the calibrated radius [r]: it is bounded by
    [1 / w], directions at infinity land on that circle, and a distorted
    point can be inverted when [w] times its radius is below one. *)
Definition distort (x : Point2d) (w : double) : Point2d :=
  let s := 1 + w * norm x in
  Point2 (pt_x x / s) (pt_y x / s).

Definition isUndistortable (x : Point2d) (w : double) : bool :=
  w * norm x <? 1.

Definition undistort (x : Point2d) (w : double) : Point2d :=
  let s := 1 - w * norm x in
  Point2 (pt_x x / s) (pt_y x / s).

Definition distortPointAtInfinity (x : Point2d) (w : double) : Point2d :=
  let s := w * norm x in
  Point2 (pt_x x / s) (pt_y x / s).

(** The inverse of a 3x3 matrix by cofactors. *)
Definition inv (M : Mat33 double) : Mat33 double :=
  let a := v3_0 (m33_0 M) in let b := v3_1 (m33_0 M) in
  let c := v3_2 (m33_0 M) in
  let d := v3_0 (m33_1 M) in let e := v3_1 (m33_1 M) in
  let f := v3_2 (m33_1 M) in
  let g := v3_0 (m33_2 M) in let h := v3_1 (m33_2 M) in
  let i := v3_2 (m33_2 M) in
  let det := a * (e * i - f * h) - b * (d * i - f * g)
             + c * (d * h - e * g) in
  let s := 1 / det in
  Rows33
    (Col3 ((e * i - f * h) * s) ((c * h - b * i) * s) ((b * f - c * e) * s))
    (Col3 ((f * g - d * i) * s) ((a * i - c * g) * s) ((c * d - a * f) * s))
    (Col3 ((d * h - e * g) * s) ((b * g - a * h) * s) ((a * e - b * d) * s)).

(** [eps_tolerance<double>(bits)]: the bracket is narrow enough when its
    width is at most [2^(1-bits)] times its smaller end. *)
Definition eps_tolerance (bits : Z) (a b : double) : bool :=
  let eps := Z.ldexp 1 (1 - bits) in
  let m := if abs a <? abs b then abs a else abs b in
  abs (a - b) <=? eps * m.

(** Bisection in the manner of Boost: the ends are tried first, a bracket
    in the wrong order or without a change of sign is refused, and the
    halving stops on an exact root, on a midpoint that is one of the ends,
    or when the tolerance holds. *)
Fixpoint halve (count : nat) (f : double -> double) (bits : Z)
    (min max fmin : double) : double * double :=
  match count with
  | O => (min, max)
  | S count' =>
      if eps_tolerance bits min max then (min, max)
      else
        let mid := (min + max) / 2 in
        let fmid := f mid in
        if (mid =? max) || (mid =? min) then (min, max)
        else if fmid =? 0 then (mid, mid)
        else if (fmid <? 0) && (0 <? fmin) || (0 <? fmid) && (fmin <? 0)
        then halve count' f bits min mid fmin
        else halve count' f bits mid max fmid
  end.

Definition bisection (f : double -> double) (min max : double) (bits : Z)
    : option (double * double) :=
  let fmin := f min in
  let fmax := f max in
  if fmin =? 0 then Some (min, min)
  else if fmax =? 0 then Some (max, max)
  else if max <=? min then None
  else if 0 <=? fmin * fmax then None
  else Some (halve 2000 f bits min max fmin).

(** [bisection], answering only inside the bracket it was given. *)
Definition bisect (f : double -> double) (min max : double) (bits : Z)
    : option (double * double) :=
  match bisection f min max bits with
  | Some r =>
      if (min <=? fst r) && (fst r <=? snd r) && (snd r <=? max)
      then Some r else None
  | None => None
  end.


Definition identity : Mat33 double :=
  Rows33 (Col3 1 0 0) (Col3 0 1 0) (Col3 0 0 1).

(** A camera without distortion whose pixels are calibrated units. *)
Definition plain : CameraProperties :=
  {| matrix := identity; distort_w := 0 |}.

(** The reference camera, at the origin, looking down the negative z axis. *)
Definition reference : CameraPose double :=
  {| rotation := identity; center := Point3 0 0 0 |}.

(** The same orientation, two units to the left and one unit behind. *)
Definition beside : Camera :=
  {| intrinsics := plain;
     extrinsics := {| rotation := identity; center := Point3 (-2) 0 1 |} |}.
End Fixture.

Module Scenario.
Local Open Scope float_scope.

(** A lens with [w = 1/2]: distorted radii stay below two. *)
Definition wide : CameraProperties :=
  {| matrix := Fixture.identity; distort_w := 0.5 |}.

(** Two frames: the image center, and a pixel four units out. *)
Definition two_frames : Track Point2d :=
  [(0%Z, Point2 0 0); (1%Z, Point2 4 0)].

Definition calibrator : Track Point2d -> CameraProperties -> Track Point2d :=
  calibrateAndUndistortTrack Fixture.isUndistortable Fixture.undistort
    Fixture.inv.

(** The same lens behind a calibration matrix that is not the identity:
    a pixel is half a calibrated unit, and the principal point is the pixel
    [(1, 1)]. *)
Definition zoomed : CameraProperties :=
  {| matrix := Rows33 (Col3 2 0 1) (Col3 0 2 1) (Col3 0 0 1);
     distort_w := 0.5 |}.

(** Three frames: the principal point, the pixel two to its right and the
    pixel eight to its right, which calibrate to radius 0, 1 and 4. *)
Definition three_frames : Track Point2d :=
  [(0%Z, Point2 1 1); (1%Z, Point2 3 1); (2%Z, Point2 9 1)].

(** One track with one observation, at the image center of the reference
    camera, and one other view. *)
Definition center_track : Track Point2d := [(0%Z, Point2 0 0)].

Definition one_view : list OtherView :=
  [{| index := 1%Z; camera := Fixture.beside |}].

(** The ray of that observation: from the origin down the negative z
    axis. *)
Definition c : Point3d := center Fixture.reference.
Definition v : Point3d :=
  rayDirection (rotation Fixture.reference) (Point2 0 0).

Definition search : nat -> Point3d -> Point3d -> Camera -> outcome ViewResult :=
  searchView Fixture.distort Fixture.distortPointAtInfinity Fixture.bisect.

Definition build : nat -> TrackList Point2d -> CameraPose double ->
    list OtherView -> outcome (MultiviewTrackList Point2d * list LogRecord) :=
  findMultiviewTracks Fixture.distort Fixture.distortPointAtInfinity
    Fixture.bisect.



(** A camera one unit above the origin on the z axis, turned half a turn
    about the x axis: it looks up the positive z axis, away from the ray. *)
Definition facing_away : Camera :=
  {| intrinsics := Fixture.plain;
     extrinsics :=
       {| rotation := Rows33 (Col3 1 0 0) (Col3 0 (-1) 0) (Col3 0 0 (-1));
          center := Point3 0 0 1 |} |}.

(** A camera turned the same way, placed so that the ray starts in front
    of it and leaves behind it, with a lens of [w = 1/4]. *)
Definition turned : Camera :=
  {| intrinsics := {| matrix := Fixture.identity; distort_w := 0.25 |};
     extrinsics :=
       {| rotation := Rows33 (Col3 1 0 0) (Col3 0 (-1) 0) (Col3 0 0 (-1));
          center := Point3 (-2) 0 (-1) |} |}.

(** A camera turned a quarter turn about the y axis, one unit along the
    negative x axis: its optical axis is perpendicular to the ray. *)
Definition perpendicular : Camera :=
  {| intrinsics := Fixture.plain;
     extrinsics :=
       {| rotation := Rows33 (Col3 0 0 (-1)) (Col3 0 1 0) (Col3 1 0 0);
          center := Point3 (-1) 0 0 |} |}.
End Scenario.

(** ** Fuel

    A computation is stable when an outcome it reaches with some fuel is the
    outcome it reaches with any more fuel: [Done] and [Fatal] are then
    outcomes of the program, and only [OutOfFuel] speaks of the model. *)
Definition stable {A : Type} (f : nat -> outcome A) : Prop :=
  forall fuel fuel', (fuel <= fuel')%nat ->
    f fuel <> OutOfFuel -> f fuel' = f fuel.

(** ** What the builder has searched *)

(** The direction of the ray of a point, as [findExtentOfRay] derives it. *)
Definition rayOf (pose : CameraPose double) (point : Z * Point2d) : Point3d :=
  rayDirection (rotation pose) (snd point).

(** The search for [point] ended normally in every other view, in the order
    of the views, with the results [results]. *)
Definition searchedAgainst
    (distort distortPointAtInfinity : Point2d -> double -> Point2d)
    (bisect : (double -> double) -> double -> double -> Z
              -> option (double * double))
    (fuel : nat) (pose : CameraPose double) (other_views : list OtherView)
    (point : Z * Point2d) (results : list ViewResult) : Prop :=
  Forall2
    (fun view r =>
       searchView distort distortPointAtInfinity bisect fuel (center pose)
         (rayOf pose point) (camera view) = Done r)
    other_views results.

(** ** Shapes of a quantized ray *)

(** Consecutive entries of a list are related by [R]. *)
Definition consecutive {A : Type} (R : A -> A -> Prop) (l : list A) : Prop :=
  forall i a b, nth_error l i = Some a -> nth_error l (S i) = Some b -> R a b.

Definition increasing_along_lambda (lambdas : list double) : Prop :=
  consecutive (fun a b => (a <=? b)%float = true) lambdas.

Definition decreasing_along_lambda (lambdas : list double) : Prop :=
  consecutive (fun a b => (b <? a)%float = true) lambdas.

(** Every entry of [lambdas] is related by [step] to the upper bracket and
    the pixel that the loop held when the entry was appended: the anchor
    for the first entry, the previous entry and its pixel afterwards. *)
Fixpoint each_step (step : double -> Point2d -> double -> Prop)
    (pixel : double -> Point2d) (lambda : double) (x : Point2d)
    (lambdas : list double) : Prop :=
  match lambdas with
  | [] => True
  | l :: rest => step lambda x l /\ each_step step pixel l (pixel l) rest
  end.

(** The upper bracket and the pixel that the loop holds after it has
    appended [lambdas], having started with [lambda] and [x]. *)
Definition loopState (pixel : double -> Point2d) (lambda : double)
    (x : Point2d) (lambdas : list double) : double * Point2d :=
  fold_left (fun _ l => (l, pixel l)) lambdas (lambda, x).

(** One pass of the quantization loop that appends [l], seen from the state
    [(lambda, x)] in which it starts: the residual at [lambda_min] is not
    negative, [bisect] answers on the bracket from [lambda_min] to [lambda],
    [l] is the upper end of its answer, and [l] passes the limit-cycle
    check. *)
Definition appended_by
    (distort : Point2d -> double -> Point2d)
    (bisect : (double -> double) -> double -> double -> Z
              -> option (double * double))
    (A B : Vec3 double) (delta : double) (intr : CameraProperties)
    (lambda_min : double) (lambda : double) (x : Point2d) (l : double)
    : Prop :=
  (errorInDistanceFromPoint distort x lambda_min A B delta intr <? 0)%float
  = false /\
  exists r,
    bisect (fun l' => errorInDistanceFromPoint distort x l' A B delta intr)
      lambda_min lambda 16%Z = Some r /\
    l = snd r /\ (l =? lambda)%float = false.

(** The contract of a root finder that answers inside its bracket. *)
Definition stays_in_bracket
    (bisect : (double -> double) -> double -> double -> Z
              -> option (double * double)) : Prop :=
  forall f min max bits r,
    bisect f min max bits = Some r -> (snd r <=? max)%float = true.




(** ** Statements of the specification that the program does not meet *)

(** "The track calibrator drops exactly the points on which
    [isUndistortable] returns true." *)
Definition drops_where_isUndistortable_holds
    (isUndistortable : Point2d -> double -> bool)
    (undistort : Point2d -> double -> Point2d)
    (inv : Mat33 double -> Mat33 double)
    (track : Track Point2d) (intr : CameraProperties) : Prop :=
  forall i p, In (i, p) track ->
    (isUndistortable
       (snd (calibrateIndexedPoint (inv (matrix intr)) (i, p)))
       (distort_w intr) = true
     <-> ~ In i (frames (calibrateAndUndistortTrack isUndistortable undistort
                           inv track intr))).

(** "Every non-empty CandidateSequence is ordered increasing along
    lambda." *)
Definition candidates_increase
    (distort distortPointAtInfinity : Point2d -> double -> Point2d)
    (bisect : (double -> double) -> double -> double -> Z
              -> option (double * double)) : Prop :=
  forall fuel c v other lambdas,
    searchView distort distortPointAtInfinity bisect fuel c v other
    = Done (QuantizedRay lambdas) ->
    increasing_along_lambda lambdas.


(** "After the build, each other view's slot of the multiview track holds
    the candidate sequence computed for that point and view": at the least,
    a view for which candidates were computed has a slot that is not
    empty. *)
Definition slots_hold_candidates
    (distort distortPointAtInfinity : Point2d -> double -> Point2d)
    (bisect : (double -> double) -> double -> double -> Z
              -> option (double * double))
    (fuel : nat) (tracks : TrackList Point2d) (pose : CameraPose double)
    (other_views : list OtherView) : Prop :=
  forall result log,
    findMultiviewTracks distort distortPointAtInfinity bisect fuel tracks
      pose other_views = Done (result, log) ->
  forall k track point view r,
    nth_error tracks k = Some track -> In point track ->
    In view other_views ->
    searchView distort distortPointAtInfinity bisect fuel (center pose)
      (rayDirection (rotation pose) (snd point)) (camera view) = Done r ->
    candidateLambdas r <> [] ->
    exists mt slot,
      nth_error (multiview_tracks result) k = Some mt /\
      In slot mt /\ slot <> [].

(** ** Further shapes of a search *)

(** The values the doubling loop of lines 171-180 tries when it starts from
    [lambda]: [lambda], [2 lambda], [4 lambda], ... *)
Definition doubled (lambda : double) (n : nat) : double :=
  Nat.iter n (fun l => (l * 2)%float) lambda.

(** The test of line 140, negated: the ray is not entirely behind the
    camera. *)
Definition isObserved (c v : Point3d) (other : Camera) : bool :=
  let AB := rayImage (CameraPose_matrix (extrinsics other)) c v in
  negb ((0 <? v3_2 (fst AB)) && (0 <? v3_2 (snd AB)))%float.

(** The two ways in which a search can be aborted. *)
Definition isSearchAbort (msg : string) : Prop :=
  msg = "Check failed: lambda != old_lambda Entered limit cycle"%string \/
  msg = "boost::math::evaluation_error"%string.

(** A computation that is aborted only with messages in [P]. *)
Definition aborts_only_with {A : Type} (P : string -> Prop) (o : outcome A)
    : Prop :=
  forall msg, o = Fatal msg -> P msg.

(** ** The command-line tool (lines 276-389) *)

(** What [main] logs: its own two lines (325 and 332) and the lines of the
    search. *)
Inductive MainLogRecord : Type :=
| LoadedTracks (tracks : nat)
| MatchingTo (views : nat)
| FromSearch (r : LogRecord).

(** How a run of [main] that is not aborted ends: its exit status, the file
    and the list that were handed to [saveMultiviewTrackList], and its
    log. *)
Record Exit : Type := {
  exit_status : Z;
  saved : option (string * MultiviewTrackList Point2d);
  logged : list MainLogRecord
}.

(** A glog [CHECK] on the result of a loader. *)
Definition loaded {A : Type} (r : option A) (msg : string) : outcome A :=
  match r with
  | Some a => Done a
  | None => Fatal msg
  end.

(** A glog [CHECK]. *)
Definition check (ok : bool) (msg : string) : outcome unit :=
  if ok then Done tt else Fatal msg.

Section Main.
(** The collaborators of [main]: the lens, OpenCV's inverse and Boost's
    bisection as before; [boost::lexical_cast<int>], which throws on text
    that is no integer; [boost::format] with one argument; the readers,
    which report failure, and the writer; and the default-constructed
    [Camera]. *)
Variable distort : Point2d -> double -> Point2d.
Variable distortPointAtInfinity : Point2d -> double -> Point2d.
Variable isUndistortable : Point2d -> double -> bool.
Variable undistort : Point2d -> double -> Point2d.
Variable inv : Mat33 double -> Mat33 double.
Variable bisect :
  (double -> double) -> double -> double -> Z -> option (double * double).
Variable lexical_cast_int : string -> option Z.
Variable format : string -> string -> string.
Variable loadTrackList : string -> option (TrackList Point2d).
Variable readLines : string -> option (list string).
Variable loadCameraProperties : string -> option CameraProperties.
Variable loadCameraPose : string -> option (CameraPose double).
Variable saveMultiviewTrackList :
  string -> MultiviewTrackList Point2d -> bool.
Variable default_camera : Camera.

(** Lines 276-279. *)
Definition makeViewFilename (fmt name : string) : string :=
  format fmt name.

(** The loop of lines 344-369 over the views, from the view numbered
    [view] on. *)
Fixpoint loadViews (main_view : Z)
    (intrinsics_format extrinsics_format : string) (view : Z)
    (view_names : list string) (camera : Camera)
    (other_views : list OtherView) : outcome (Camera * list OtherView) :=
  match view_names with
  | [] => Done (camera, other_views)
  | name :: rest =>
      let intrinsics_file := makeViewFilename intrinsics_format name in
      intr <- loaded (loadCameraProperties intrinsics_file)
                "Check failed: ok Could not load intrinsics" ;;
      let extrinsics_file := makeViewFilename extrinsics_format name in
      extr <- loaded (loadCameraPose extrinsics_file)
                "Check failed: ok Could not load extrinsics" ;;
      let view_camera := {| intrinsics := intr; extrinsics := extr |} in
      if (view =? main_view)%Z
      then loadViews main_view intrinsics_format extrinsics_format
             (view + 1)%Z rest view_camera other_views
      else loadViews main_view intrinsics_format extrinsics_format
             (view + 1)%Z rest camera
             (other_views ++ [{| index := view; camera := view_camera |}])
  end.

(** Lines 281-389, on the argument vector that the flag parser leaves.
    [init] exits with status 1 unless there are nine arguments. *)
Definition main (fuel : nat) (argv : list string) : outcome Exit :=
  if negb (List.length argv =? 9)%nat
  then Done {| exit_status := 1; saved := None; logged := [] |}
  else
    main_view <- loaded (lexical_cast_int (nth 1 argv ""%string))
                   "boost::bad_lexical_cast" ;;
    let input_tracks_file := nth 2 argv ""%string in
    let intrinsics_format := nth 5 argv ""%string in
    let extrinsics_format := nth 4 argv ""%string in
    let views_file := nth 6 argv ""%string in
    num_frames <- loaded (lexical_cast_int (nth 7 argv ""%string))
                    "boost::bad_lexical_cast" ;;
    let multiview_tracks_file := nth 8 argv ""%string in
    input_tracks <- loaded (loadTrackList input_tracks_file)
                      "Check failed: ok Could not load tracks" ;;
    view_names <- loaded (readLines views_file)
                    "Check failed: ok Could not load view names" ;;
    let num_views := Z.of_nat (List.length view_names) in
    _ <- check (0 <=? main_view)%Z "Check failed: main_view >= 0" ;;
    _ <- check (main_view <? num_views)%Z
           "Check failed: main_view < num_views" ;;
    views <- loadViews main_view intrinsics_format extrinsics_format 0%Z
               view_names default_camera [] ;;
    let camera := fst views in
    let other_views := snd views in
    let undistorted_tracks :=
      List.map
        (fun track =>
           calibrateAndUndistortTrack isUndistortable undistort inv track
             (intrinsics camera))
        input_tracks in
    built <- findMultiviewTracks distort distortPointAtInfinity bisect fuel
               undistorted_tracks (extrinsics camera) other_views ;;
    _ <- check (saveMultiviewTrackList multiview_tracks_file (fst built))
           "Check failed: ok Could not save tracks" ;;
    Done {| exit_status := 0;
            saved := Some (multiview_tracks_file, fst built);
            logged :=
              LoadedTracks (List.length input_tracks)
              :: MatchingTo (List.length view_names)
              :: List.map FromSearch (snd built) |}.
End Main.

(** The numbers of the views from [view] on. *)
Definition viewNumbers (view : Z) (n : nat) : list Z :=
  List.map (fun k => (view + Z.of_nat k)%Z) (List.seq 0 n).

(** The two files of the view [name] load, and give the camera [c]. *)
Definition loadsAs (format : string -> string -> string)
    (loadCameraProperties : string -> option CameraProperties)
    (loadCameraPose : string -> option (CameraPose double))
    (intrinsics_format extrinsics_format : string)
    (name : string) (c : Camera) : Prop :=
  loadCameraProperties (makeViewFilename format intrinsics_format name)
  = Some (intrinsics c) /\
  loadCameraPose (makeViewFilename format extrinsics_format name)
  = Some (extrinsics c).

(** A file system on which [main] can be run: two views, [ref] and
    [beside], whose cameras are those of the scenarios, and one track. *)
Module Tool.
Local Open Scope string_scope.

Definition lexical_cast_int (s : string) : option Z :=
  if String.eqb s "0" then Some 0%Z
  else if String.eqb s "1" then Some 1%Z
  else if String.eqb s "2" then Some 2%Z
  else if String.eqb s "10" then Some 10%Z
  else if String.eqb s "20" then Some 20%Z
  else None.

(** Formats of the shape [dir/%s]. *)
Definition format (fmt name : string) : string := fmt ++ name.

Definition loadTrackList (file : string) : option (TrackList Point2d) :=
  if String.eqb file "tracks" then Some [Scenario.center_track] else None.

Definition readLines (file : string) : option (list string) :=
  if String.eqb file "views" then Some ["ref"; "beside"] else None.

Definition loadCameraProperties (file : string) : option CameraProperties :=
  if String.eqb file "int/ref" then Some Fixture.plain
  else if String.eqb file "int/beside" then Some Fixture.plain
  else None.

Definition loadCameraPose (file : string) : option (CameraPose double) :=
  if String.eqb file "ext/ref" then Some Fixture.reference
  else if String.eqb file "ext/beside" then Some (extrinsics Fixture.beside)
  else None.

Definition saveMultiviewTrackList (file : string)
    (tracks : MultiviewTrackList Point2d) : bool :=
  String.eqb file "out".

Definition default_camera : Camera :=
  {| intrinsics := Fixture.plain; extrinsics := Fixture.reference |}.

Definition argv : list string :=
  ["find_multiview_track"; "0"; "tracks"; "img/"; "ext/"; "int/"; "views";
   "10"; "out"].

Definition run : nat -> list string -> outcome Exit :=
  main Fixture.distort Fixture.distortPointAtInfinity
    Fixture.isUndistortable Fixture.undistort Fixture.inv Fixture.bisect
    lexical_cast_int format loadTrackList readLines loadCameraProperties
    loadCameraPose saveMultiviewTrackList default_camera.
End Tool.

(** The argument vector with its argument [i] replaced by [s]. *)
Definition replaceArg (i : nat) (s : string) (argv : list string)
    : list string :=
  firstn i argv ++ s :: skipn (S i) argv.

(** ** Mutual matches: [match_features.cpp] *)

(** [cv::DMatch], without its image index.  The distance is a C++ [float];
    the program only widens it to [double] and compares it, so it is kept
    as the [double] it is widened to. *)
Record DMatch : Type := {
  queryIdx : Z;
  trainIdx : Z;
  distance : double
}.

(** [Match] of [match.hpp], which is not among the sources: the program
    builds it from two indices, reads its [first] and [second] and copies
    it into a [std::map<int, int>], as a pair of indices. *)
Definition Match : Type := (Z * Z)%type.
Definition MatchList : Type := list Match.

(** Lines 20-22. *)
Definition MatchResultList : Type := list DMatch.

(** Lines 37-46.  The function reads the first two entries of the list; on
    a shorter list it reads past the end, which is [None] here. *)
Definition isNotDistinctive (matches : MatchResultList) (ratio : double)
    : option bool :=
  match matches with
  | first :: second :: _ =>
      Some (ratio * distance second <=? distance first)%float
  | _ => None
  end.

(** Lines 48-50. *)
Definition extractIndices (m : DMatch) : Match :=
  (queryIdx m, trainIdx m).

(** Lines 52-54; [front()] of an empty list is [None]. *)
Definition extractFirstMatch (matches : MatchResultList) : option Match :=
  match matches with
  | first :: _ => Some (extractIndices first)
  | [] => None
  end.

(** [std::map::find]. *)
Fixpoint map_find {T : Type} (key : Z) (m : Track T) : option T :=
  match m with
  | [] => None
  | kv :: m' => if (fst kv =? key)%Z then Some (snd kv) else map_find key m'
  end.

(** Lines 56-81: the functor and its constructor, which copies the matches
    into the map through [std::inserter]. *)
Record IsInconsistent : Type := { lookup : Track Z }.

Definition IsInconsistent_new (matches : MatchList) : IsInconsistent :=
  {| lookup := transform_into (fun m : Z * Z => m) matches [] |}.

Definition IsInconsistent_call (self : IsInconsistent) (forward : Match)
    : bool :=
  match map_find (snd forward) (lookup self) with
  | None => true
  | Some reverse_second =>
      if negb (reverse_second =? fst forward)%Z then true else false
  end.

(** [std::remove_copy_if] into a [std::back_inserter], with a predicate
    that may read past the end of its argument. *)
Fixpoint remove_copy_if_defined {A : Type} (pred : A -> option bool)
    (l : list A) : option (list A) :=
  match l with
  | [] => Some []
  | a :: rest =>
      match pred a, remove_copy_if_defined pred rest with
      | Some true, Some kept => Some kept
      | Some false, Some kept => Some (a :: kept)
      | _, _ => None
      end
  end.

(** [std::transform] into a [std::back_inserter], likewise. *)
Fixpoint transform_defined {A B : Type} (f : A -> option B) (l : list A)
    : option (list B) :=
  match l with
  | [] => Some []
  | a :: rest =>
      match f a, transform_defined f rest with
      | Some b, Some bs => Some (b :: bs)
      | _, _ => None
      end
  end.

(** Lines 145-181 of [main]: from the two lists of nearest neighbours that
    the matcher returned to the list of matches that is saved. *)
Definition selectMatches
    (forward_match_lists reverse_match_lists : list MatchResultList)
    (min_relative_distance : double) : option MatchList :=
  match
    remove_copy_if_defined
      (fun matches => isNotDistinctive matches min_relative_distance)
      forward_match_lists,
    remove_copy_if_defined
      (fun matches => isNotDistinctive matches min_relative_distance)
      reverse_match_lists
  with
  | Some forward_distinctive, Some reverse_distinctive =>
      match
        transform_defined extractFirstMatch forward_distinctive,
        transform_defined extractFirstMatch reverse_distinctive
      with
      | Some forward_matches, Some reverse_matches =>
          Some
            (List.filter
               (fun m =>
                  negb (IsInconsistent_call
                          (IsInconsistent_new reverse_matches) m))
               forward_matches)
      | _, _ => None
      end
  | _, _ => None
  end.

(** The first entry of a list of matches whose first index is [key]. *)
Definition firstWithKey (key : Z) (matches : MatchList) : option Match :=
  List.find (fun m => (fst m =? key)%Z) matches.

(** Nearest neighbours on which the selection can be run: feature 0 of
    the first image and feature 1 of the second are each other's best
    match; feature 1 of the first image also prefers feature 1 of the
    second, which does not prefer it. *)
Module Neighbours.
Local Open Scope float_scope.

Definition forward : list MatchResultList :=
  [[{| queryIdx := 0; trainIdx := 1; distance := 1 |};
    {| queryIdx := 0; trainIdx := 2; distance := 4 |}];
   [{| queryIdx := 1; trainIdx := 1; distance := 2 |};
    {| queryIdx := 1; trainIdx := 0; distance := 8 |}]].

Definition reverse : list MatchResultList :=
  [[{| queryIdx := 1; trainIdx := 0; distance := 1 |};
    {| queryIdx := 1; trainIdx := 1; distance := 2 |}]].

(** The default of the flag [threshold], 0.8, as the [double] nearest to
    it (line 16). *)
Definition threshold : double := 0x1.999999999999ap-1.

(** Two neighbours at distance zero. *)
Definition duplicates : MatchResultList :=
  [{| queryIdx := 0; trainIdx := 1; distance := 0 |};
   {| queryIdx := 0; trainIdx := 2; distance := 0 |}].
End Neighbours.

(** * Properties *)

(** ** Insertion into a [std::map] in key order *)

Lemma sorted_app_below (l1 : list Z) (x : Z) (l2 : list Z) :
  StronglySorted Z.lt (l1 ++ x :: l2) -> Forall (fun k => (k < x)%Z) l1.
Proof.
  induction l1 as [|k l1 IH]; simpl; intros Hs.
  - constructor.
  - inversion Hs as [|? ? Hs' Hall]; subst.
    constructor.
    + rewrite Forall_forall in Hall. apply Hall.
      apply in_or_app. right. left. reflexivity.
    + apply IH, Hs'.
Qed.

Lemma map_insert_last {T : Type} (kv : Z * T) (m : Track T) :
  Forall (fun k => (k < fst kv)%Z) (frames m) -> map_insert kv m = m ++ [kv].
Proof.
  induction m as [|kv' m IH]; simpl; intros Hall.
  - reflexivity.
  - inversion Hall as [|? ? Hlt Hall']; subst.
    apply Z.lt_gt, Z.gt_lt_iff, Z.compare_gt_iff in Hlt.
    rewrite Hlt. f_equal. apply IH, Hall'.
Qed.

Lemma transform_into_sorted {S T : Type} (f : Z * S -> Z * T) :
  (forall kv, fst (f kv) = fst kv) ->
  forall (src : Track S) (dst : Track T),
    StronglySorted Z.lt (frames dst ++ frames src) ->
    transform_into f src dst = dst ++ List.map f src.
Proof.
  intros Hkey src.
  induction src as [|kv src IH]; intros dst Hs; simpl.
  - symmetry. apply app_nil_r.
  - unfold transform_into in *. simpl.
    rewrite map_insert_last.
    + rewrite IH.
      * rewrite <- app_assoc. reflexivity.
      * unfold frames in *. rewrite map_app. simpl. rewrite <- app_assoc.
        simpl. rewrite Hkey. exact Hs.
    + rewrite Hkey. apply sorted_app_below with (l2 := frames src). exact Hs.
Qed.

Lemma remove_copy_if_into_sorted {T : Type} (pred : Z * T -> bool) :
  forall (src dst : Track T),
    StronglySorted Z.lt (frames dst ++ frames src) ->
    remove_copy_if_into pred src dst
    = dst ++ List.filter (fun kv => negb (pred kv)) src.
Proof.
  intros src.
  induction src as [|kv src IH]; intros dst Hs; simpl.
  - symmetry. apply app_nil_r.
  - unfold remove_copy_if_into in *. simpl.
    assert (Hrest : StronglySorted Z.lt (frames dst ++ frames src)).
    { clear IH. induction dst as [|d dst IHd]; simpl in *.
      - inversion Hs; assumption.
      - inversion Hs as [|? ? Hs' Hall]; subst. constructor.
        + apply IHd, Hs'.
        + rewrite Forall_forall in *. intros k Hk. apply Hall.
          apply in_app_or in Hk. apply in_or_app.
          destruct Hk as [Hk|Hk]; [left|right; right]; assumption. }
    destruct (pred kv); simpl.
    + apply IH, Hrest.
    + rewrite map_insert_last.
      * rewrite IH.
        -- rewrite <- app_assoc. reflexivity.
        -- unfold frames in *. rewrite map_app. simpl. rewrite <- app_assoc.
           exact Hs.
      * apply sorted_app_below with (l2 := frames src). exact Hs.
Qed.

Lemma frames_map_keys {S T : Type} (f : Z * S -> Z * T) (t : Track S) :
  (forall kv, fst (f kv) = fst kv) -> frames (List.map f t) = frames t.
Proof.
  intros Hkey. unfold frames. rewrite map_map.
  apply map_ext. exact Hkey.
Qed.

Lemma is_track_filter {T : Type} (keep : Z * T -> bool) (t : Track T) :
  is_track t -> is_track (List.filter keep t).
Proof.
  unfold is_track, frames.
  induction t as [|kv t IH]; simpl; intros Hs.
  - constructor.
  - inversion Hs as [|? ? Hs' Hall]; subst.
    destruct (keep kv); simpl.
    + constructor.
      * apply IH, Hs'.
      * rewrite Forall_forall in *. intros k Hk. apply Hall.
        apply in_map_iff in Hk. destruct Hk as [q [Hq Hin]].
        apply filter_In in Hin. apply in_map_iff. exists q. tauto.
    + apply IH, Hs'.
Qed.

Lemma is_track_unique {T : Type} (t : Track T) (i : Z) (p q : T) :
  is_track t -> In (i, p) t -> In (i, q) t -> p = q.
Proof.
  unfold is_track, frames.
  induction t as [|kv t IH]; simpl; intros Hs Hp Hq.
  - contradiction.
  - inversion Hs as [|? ? Hs' Hall]; subst.
    rewrite Forall_forall in Hall.
    assert (Hfresh : forall r, In (i, r) t -> (fst kv < i)%Z).
    { intros r Hr. apply Hall. apply in_map_iff. exists (i, r). tauto. }
    destruct Hp as [Hp|Hp], Hq as [Hq|Hq].
    + congruence.
    + apply Hfresh in Hq. subst kv. simpl in Hq. lia.
    + apply Hfresh in Hp. subst kv. simpl in Hp. lia.
    + apply IH; assumption.
Qed.

(** The calibrator as three passes over the list of entries. *)
Lemma calibrateAndUndistortTrack_passes
    (isUndistortable : Point2d -> double -> bool)
    (undistort : Point2d -> double -> Point2d)
    (inv : Mat33 double -> Mat33 double)
    (track : Track Point2d) (intr : CameraProperties) :
  is_track track ->
  let K_inv := inv (matrix intr) in
  let w := distort_w intr in
  let calibrated := List.map (calibrateIndexedPoint K_inv) track in
  let valid := List.filter (fun p => isUndistortable (snd p) w) calibrated in
  calibratedPoints inv track intr = calibrated /\
  validPoints isUndistortable inv track intr = valid /\
  calibrateAndUndistortTrack isUndistortable undistort inv track intr
  = List.map (undistortIndexedPoint undistort w) valid.
Proof.
  intros Htrack K_inv w calibrated valid.
  assert (Hc : calibratedPoints inv track intr = calibrated).
  { unfold calibratedPoints. rewrite transform_into_sorted.
    - reflexivity.
    - reflexivity.
    - exact Htrack. }
  assert (Hcal : is_track calibrated).
  { unfold is_track, calibrated. rewrite frames_map_keys.
    - exact Htrack.
    - reflexivity. }
  assert (Hv : validPoints isUndistortable inv track intr = valid).
  { unfold validPoints. rewrite Hc, remove_copy_if_into_sorted.
    - simpl. unfold valid. apply filter_ext. intros kv.
      unfold indexedPointIsNotUndistortable. apply negb_involutive.
    - exact Hcal. }
  repeat split; try assumption.
  unfold calibrateAndUndistortTrack. rewrite Hv, transform_into_sorted.
  - reflexivity.
  - reflexivity.
  - apply (is_track_filter _ Hcal).
Qed.

(** ** The track calibrator *)

(** C8.  On every track, [calibrateAndUndistortTrack] first applies the
    inverse calibration matrix to every point: the pixel [(x, y)] becomes
    the first two entries of [K_inv (x, y, 1)] divided by the third.  It
    then keeps the calibrated points on which [isUndistortable] holds, and
    only then undistorts, and only the points it kept.  The frames of the
    result are the frames of the input whose calibrated point passed the
    test, in the same order and under the same indices, and the point at a
    surviving frame is the undistorted calibrated point of that frame. *)
Theorem c8_calibrate_then_filter_then_undistort
    (isUndistortable : Point2d -> double -> bool)
    (undistort : Point2d -> double -> Point2d)
    (inv : Mat33 double -> Mat33 double)
    (track : Track Point2d) (intr : CameraProperties) :
  is_track track ->
  let K_inv := inv (matrix intr) in
  let w := distort_w intr in
  let k00 := v3_0 (m33_0 K_inv) in
  let k01 := v3_1 (m33_0 K_inv) in
  let k02 := v3_2 (m33_0 K_inv) in
  let k10 := v3_0 (m33_1 K_inv) in
  let k11 := v3_1 (m33_1 K_inv) in
  let k12 := v3_2 (m33_1 K_inv) in
  let k20 := v3_0 (m33_2 K_inv) in
  let k21 := v3_1 (m33_2 K_inv) in
  let k22 := v3_2 (m33_2 K_inv) in
  let calibrate := fun x : Point2d =>
    Point2
      ((k00 * pt_x x + k01 * pt_y x + k02 * 1)
       / (k20 * pt_x x + k21 * pt_y x + k22 * 1))%float
      ((k10 * pt_x x + k11 * pt_y x + k12 * 1)
       / (k20 * pt_x x + k21 * pt_y x + k22 * 1))%float in
  let calibrated := calibratedPoints inv track intr in
  let valid := validPoints isUndistortable inv track intr in
  let result :=
    calibrateAndUndistortTrack isUndistortable undistort inv track intr in
  calibrated = List.map (fun p => (fst p, calibrate (snd p))) track /\
  valid = List.filter (fun q => isUndistortable (snd q) w) calibrated /\
  (forall q, In q valid -> isUndistortable (snd q) w = true) /\
  result = List.map (fun q => (fst q, undistort (snd q) w)) valid /\
  frames result
  = frames
      (List.filter (fun p => isUndistortable (calibrate (snd p)) w) track) /\
  is_track result /\
  (forall i q, In (i, q) result <->
     exists p, In (i, p) track /\
       isUndistortable (calibrate p) w = true /\
       q = undistort (calibrate p) w).
Proof.
  intros Htrack K_inv w k00 k01 k02 k10 k11 k12 k20 k21 k22 calibrate
    calibrated valid result.
  destruct (calibrateAndUndistortTrack_passes isUndistortable undistort inv
              intr Htrack) as [Hc [Hv Hr]].
  fold K_inv w in Hc, Hv, Hr. fold calibrated in Hc. fold valid in Hv.
  fold result in Hr.
  assert (Hentries : forall p,
            calibrateIndexedPoint K_inv p = (fst p, calibrate (snd p))).
  { intros p. reflexivity. }
  assert (Hc' : calibrated
                = List.map (fun p => (fst p, calibrate (snd p))) track).
  { rewrite Hc. apply map_ext. exact Hentries. }
  assert (Hv' : valid
                = List.filter (fun q => isUndistortable (snd q) w)
                    calibrated).
  { rewrite Hv, Hc. reflexivity. }
  assert (Hr' : result
                = List.map (fun q => (fst q, undistort (snd q) w)) valid).
  { rewrite Hr, Hv. reflexivity. }
  assert (Hf : valid
               = List.map (fun p => (fst p, calibrate (snd p)))
                   (List.filter
                      (fun p => isUndistortable (calibrate (snd p)) w)
                      track)).
  { rewrite Hv', Hc'. clear. induction track as [|kv t IH]; simpl.
    - reflexivity.
    - destruct (isUndistortable (calibrate (snd kv)) w); simpl.
      + f_equal. exact IH.
      + exact IH. }
  assert (Hframes : frames result
                    = frames
                        (List.filter
                           (fun p => isUndistortable (calibrate (snd p)) w)
                           track)).
  { rewrite Hr', Hf. rewrite !frames_map_keys; reflexivity. }
  split; [exact Hc'|]. split; [exact Hv'|].
  split.
  { intros q Hq. rewrite Hv' in Hq. apply filter_In in Hq. apply Hq. }
  split; [exact Hr'|]. split; [exact Hframes|].
  split.
  - unfold is_track. rewrite Hframes. apply is_track_filter, Htrack.
  - intros i q. rewrite Hr', Hf, map_map. rewrite in_map_iff. split.
    + intros [[j p] [Heq Hin]]. apply filter_In in Hin.
      destruct Hin as [Hin Hs]. simpl in Heq, Hs.
      inversion Heq; subst. exists p. auto.
    + intros [p [Hin [Hs Hq]]]. exists (i, p). split.
      * simpl. rewrite Hq. reflexivity.
      * apply filter_In. auto.
Qed.

(** The calibration matrix of the camera is not the identity: the pixel
    [(3, 1)] fails the test as a pixel and passes it once calibrated to
    [(1, 0)], and is kept; the pixel [(9, 1)] calibrates to [(4, 0)] and is
    dropped. *)
Lemma c8_witness :
  is_track Scenario.three_frames /\
  Scenario.calibrator Scenario.three_frames Scenario.zoomed
  = [(0%Z, Point2 0 0)%float; (1%Z, Point2 2 0)%float] /\
  Fixture.isUndistortable (Point2 3 1)%float (distort_w Scenario.zoomed)
  = false /\
  In (1%Z, Point2 2 0)%float
    (Scenario.calibrator Scenario.three_frames Scenario.zoomed).
Proof.
  assert (Ht : is_track Scenario.three_frames).
  { unfold is_track. simpl. repeat constructor. }
  split; [exact Ht|].
  destruct (c8_calibrate_then_filter_then_undistort Fixture.isUndistortable
              Fixture.undistort Fixture.inv Scenario.zoomed Ht)
    as [Hc [Hv [_ [Hr [_ [_ Hin]]]]]].
  split; [|split].
  - unfold Scenario.calibrator. rewrite Hr, Hv, Hc. vm_compute. reflexivity.
  - vm_compute. reflexivity.
  - unfold Scenario.calibrator. apply Hin. exists (Point2 3 1)%float.
    split; [right; left; reflexivity|].
    split; vm_compute; reflexivity.
Defined.

(** A frame of a track is in the result exactly when [isUndistortable]
    holds of its calibrated point. *)
Lemma kept_iff_isUndistortable
    (isUndistortable : Point2d -> double -> bool)
    (undistort : Point2d -> double -> Point2d)
    (inv : Mat33 double -> Mat33 double)
    (track : Track Point2d) (intr : CameraProperties) (i : Z) (p : Point2d) :
  is_track track -> In (i, p) track ->
  (In i (frames (calibrateAndUndistortTrack isUndistortable undistort inv
                   track intr)) <->
   isUndistortable (snd (calibrateIndexedPoint (inv (matrix intr)) (i, p)))
     (distort_w intr) = true).
Proof.
  intros Htrack Hin.
  destruct (calibrateAndUndistortTrack_passes isUndistortable undistort inv
              intr Htrack) as [_ [_ Hr]].
  rewrite Hr. rewrite frames_map_keys by reflexivity.
  unfold frames. rewrite in_map_iff. split.
  - intros [[j y] [Hj Hy]]. simpl in Hj. subst j.
    apply filter_In in Hy. destruct Hy as [Hy Hu].
    apply in_map_iff in Hy. destruct Hy as [[j p'] [Heq Hin']].
    unfold calibrateIndexedPoint in Heq. simpl in Heq.
    inversion Heq; subst j.
    rewrite (is_track_unique i p p' Htrack Hin Hin').
    simpl in Hu. unfold calibrateIndexedPoint. simpl.
    rewrite H1. exact Hu.
  - intros Hu.
    exists (calibrateIndexedPoint (inv (matrix intr)) (i, p)).
    split; [reflexivity|]. apply filter_In. split; [|exact Hu].
    apply in_map. exact Hin.
Qed.

(** C2, as the program has it.  [isUndistortable] is the test that a point
    can be undistorted: on every track, a frame is kept exactly when
    [isUndistortable] returns true on its calibrated point and dropped
    exactly when it returns false; [undistort] is applied to the points of
    the container [valid] and to nothing else, and [isUndistortable] holds of
    every point in it. *)
Theorem c2_drops_where_isUndistortable_fails
    (isUndistortable : Point2d -> double -> bool)
    (undistort : Point2d -> double -> Point2d)
    (inv : Mat33 double -> Mat33 double)
    (track : Track Point2d) (intr : CameraProperties) :
  is_track track ->
  let K_inv := inv (matrix intr) in
  let w := distort_w intr in
  let valid := validPoints isUndistortable inv track intr in
  let result :=
    calibrateAndUndistortTrack isUndistortable undistort inv track intr in
  (forall i p, In (i, p) track ->
     let y := snd (calibrateIndexedPoint K_inv (i, p)) in
     (In i (frames result) <-> isUndistortable y w = true) /\
     (~ In i (frames result) <-> isUndistortable y w = false)) /\
  result = List.map (undistortIndexedPoint undistort w) valid /\
  (forall q, In q valid -> isUndistortable (snd q) w = true).
Proof.
  intros Htrack K_inv w valid result.
  destruct (calibrateAndUndistortTrack_passes isUndistortable undistort inv
              intr Htrack) as [Hc [Hv Hr]].
  fold K_inv w in Hc, Hv, Hr. fold result in Hr. unfold valid.
  split; [|split].
  - intros i p Hin. cbv zeta.
    pose proof (@kept_iff_isUndistortable isUndistortable undistort inv
                  track intr i p Htrack Hin) as Hkept.
    fold K_inv w result in Hkept.
    split; [exact Hkept|].
    destruct (isUndistortable _ w); split; intros Hx.
    + exfalso. apply Hx, Hkept. reflexivity.
    + discriminate.
    + reflexivity.
    + intros Hi. apply Hkept in Hi. discriminate.
  - rewrite Hv. exact Hr.
  - intros q Hq. rewrite Hv in Hq. apply filter_In in Hq. apply Hq.
Qed.

(** Whatever [isUndistortable] is, a frame on which it holds is kept. *)
Lemma calibrator_keeps_where_test_holds
    (isUndistortable : Point2d -> double -> bool)
    (undistort : Point2d -> double -> Point2d)
    (inv : Mat33 double -> Mat33 double)
    (track : Track Point2d) (intr : CameraProperties) (i : Z) (p : Point2d) :
  is_track track -> In (i, p) track ->
  isUndistortable (snd (calibrateIndexedPoint (inv (matrix intr)) (i, p)))
    (distort_w intr) = true ->
  ~ drops_where_isUndistortable_holds isUndistortable undistort inv track
      intr.
Proof.
  intros Htrack Hin Hholds Hclaim.
  destruct (Hclaim i p Hin) as [Hdrop _].
  apply (Hdrop Hholds).
  apply (@kept_iff_isUndistortable isUndistortable undistort inv track intr
           i p Htrack Hin).
  exact Hholds.
Qed.

Lemma c2_witness :
  is_track Scenario.two_frames /\
  In 0%Z (frames (Scenario.calibrator Scenario.two_frames Scenario.wide)) /\
  ~ In 1%Z (frames (Scenario.calibrator Scenario.two_frames Scenario.wide)).
Proof.
  assert (Ht : is_track Scenario.two_frames).
  { unfold is_track. simpl. repeat constructor. }
  destruct (c2_drops_where_isUndistortable_fails Fixture.isUndistortable
              Fixture.undistort Fixture.inv Scenario.wide Ht)
    as [Hframes _].
  split; [exact Ht|]. split.
  - apply (Hframes 0%Z (Point2 0 0)%float).
    + left. reflexivity.
    + vm_compute. reflexivity.
  - apply (Hframes 1%Z (Point2 4 0)%float).
    + right. left. reflexivity.
    + vm_compute. reflexivity.
Defined.

(** C2, as the specification words it, fails: the frame at the image center
    passes [isUndistortable] and is kept, and the frame four units out fails
    it and is dropped. *)
Lemma c2_counterexample :
  ~ drops_where_isUndistortable_holds Fixture.isUndistortable
      Fixture.undistort Fixture.inv Scenario.two_frames Scenario.wide.
Proof.
  intros Hclaim.
  destruct (Hclaim 0%Z (Point2 0 0)%float) as [Hdrop _].
  - left. reflexivity.
  - apply Hdrop.
    + vm_compute. reflexivity.
    + vm_compute. left. reflexivity.
Qed.

(** ** Doubles *)

Lemma leb_neq_ltb (x y : double) :
  (x <=? y)%float = true -> (x =? y)%float = false -> (x <? y)%float = true.
Proof.
  rewrite leb_spec, eqb_spec, ltb_spec.
  unfold SFleb, SFeqb, SFltb.
  destruct (SFcompare (Prim2SF x) (Prim2SF y)) as [[]|]; congruence.
Qed.

(** ** The quantization loop *)

Lemma consecutive_cons {A : Type} (R : A -> A -> Prop) (a : A) (l : list A) :
  match l with [] => True | b :: _ => R a b end ->
  consecutive R l -> consecutive R (a :: l).
Proof.
  intros Hhead Htail [|i] x y Hx Hy; simpl in *.
  - inversion Hx; subst. destruct l as [|b l]; [discriminate|].
    simpl in Hy. inversion Hy; subst. exact Hhead.
  - apply (Htail i); assumption.
Qed.

Lemma each_step_consecutive (step : double -> Point2d -> double -> Prop)
    (R : double -> double -> Prop) (pixel : double -> Point2d) :
  (forall lambda x l, step lambda x l -> R lambda l) ->
  forall lambdas lambda x,
    each_step step pixel lambda x lambdas -> consecutive R lambdas.
Proof.
  intros Hstep lambdas.
  induction lambdas as [|l rest IH]; intros lambda x Hall.
  - intros [|i] a b Ha; discriminate.
  - destruct Hall as [_ Hrest]. apply consecutive_cons.
    + destruct rest as [|l' rest]; [exact I|].
      destruct Hrest as [Hl' _]. apply (Hstep _ _ _ Hl').
    + apply (IH _ _ Hrest).
Qed.

Lemma each_step_impl (step step' : double -> Point2d -> double -> Prop)
    (pixel : double -> Point2d) :
  (forall lambda x l, step lambda x l -> step' lambda x l) ->
  forall lambdas lambda x,
    each_step step pixel lambda x lambdas ->
    each_step step' pixel lambda x lambdas.
Proof.
  intros Himpl lambdas.
  induction lambdas as [|l rest IH]; intros lambda x Hall; simpl in *.
  - exact I.
  - destruct Hall as [Hl Hrest]. split; [apply Himpl, Hl|apply IH, Hrest].
Qed.

Section QuantizationLoop.
Variable distort : Point2d -> double -> Point2d.
Variable distortPointAtInfinity : Point2d -> double -> Point2d.
Variable bisect :
  (double -> double) -> double -> double -> Z -> option (double * double).

(** A run of the loop that ends normally returns what it was given
    followed by what its passes appended, one entry per pass. *)
Lemma quantizeRay_steps (A B : Vec3 double) (delta : double)
    (intr : CameraProperties) (lambda_min : double) :
  forall fuel lambda x acc lambdas,
    quantizeRay distort bisect fuel A B delta intr lambda_min lambda x acc
    = Done lambdas ->
    exists appended,
      lambdas = acc ++ appended /\
      each_step (appended_by distort bisect A B delta intr lambda_min)
        (pixelAt distort intr A B) lambda x appended.
Proof.
  induction fuel as [|fuel IH]; simpl; intros lambda x acc lambdas Hrun.
  - discriminate.
  - destruct (errorInDistanceFromPoint distort x lambda_min A B delta intr
              <? 0)%float eqn:Hfmax.
    + inversion Hrun; subst. exists []. split.
      * symmetry. apply app_nil_r.
      * exact I.
    + destruct (bisect _ lambda_min lambda 16%Z) as [r|] eqn:Hbisect;
        [|discriminate].
      destruct (snd r =? lambda)%float eqn:Hcycle; [discriminate|].
      apply IH in Hrun. destruct Hrun as [appended [Heq Hall]].
      exists (snd r :: appended). split.
      * rewrite Heq, <- app_assoc. reflexivity.
      * split; [|exact Hall].
        split; [exact Hfmax|]. exists r. auto.
Qed.

(** What a view that yields a quantized ray went through. *)
Lemma searchView_quantized (fuel : nat) (c v : Point3d) (other : Camera)
    (lambdas : list double) :
  searchView distort distortPointAtInfinity bisect fuel c v other
  = Done (QuantizedRay lambdas) ->
  let AB := rayImage (CameraPose_matrix (extrinsics other)) c v in
  let A := fst AB in
  let B := snd AB in
  let a3 := v3_2 A in
  let b3 := v3_2 B in
  let lambda_min := if (a3 <? 0)%float then 0%float else (- a3 / b3)%float in
  ((0 <? a3) && (0 <? b3))%float = false /\
  exists anchor,
    findAnchor distort distortPointAtInfinity fuel (intrinsics other) A B
      1%float = Done anchor /\
    quantizeRay distort bisect fuel A B 1%float (intrinsics other)
      lambda_min (fst anchor) (snd anchor) [] = Done lambdas.
Proof.
  unfold searchView. cbv zeta.
  destruct ((0 <? _) && (0 <? _))%float eqn:Hskip; [discriminate|].
  intros Hrun. split; [reflexivity|].
  destruct (findAnchor _ _ _ _ _ _ _) as [anchor| |]; simpl in Hrun;
    try discriminate.
  exists anchor. split; [reflexivity|].
  destruct (quantizeRay _ _ _ _ _ _ _ _ _ _ _) as [ls| |]; simpl in Hrun;
    try discriminate.
  inversion Hrun; subst. reflexivity.
Qed.
End QuantizationLoop.

(** The fixture's root finder answers inside its bracket. *)
Lemma fixture_bisect_stays_in_bracket : stays_in_bracket Fixture.bisect.
Proof.
  intros f min max bits r. unfold Fixture.bisect.
  destruct (Fixture.bisection f min max bits) as [r'|]; [|discriminate].
  destruct ((min <=? fst r') && (fst r' <=? snd r') && (snd r' <=? max))%float
    eqn:Hin; [|discriminate].
  intros Heq. inversion Heq; subst.
  apply andb_prop in Hin. apply Hin.
Qed.

(** The run on which the scenarios rest: the camera beside the reference
    camera sees the ray of the image center at two positions.  Here
    [A = (2, 0, -1)] and [B = (0, -0, -1)], so the pixel at [lambda] is
    [(-2 / (1 + lambda), 0)] and the vanishing point is the origin.  The
    residual is 0 at [lambda = 1] and negative at 2, which leaves the upper
    bracket 4.  On [[0, 4]] bisection tries 2, then 1, where the residual is
    exactly zero: the first position is 1, at pixel [(-1, 0)].  From there
    the residual at [lambda_min = 0] is exactly zero, so the lower end is
    the answer: the second position is 0, at pixel [(-2, 0)].  From there
    the residual at 0 is -1 and the loop ends. *)
Lemma scenario_beside_run :
  Scenario.search 100 Scenario.c Scenario.v Fixture.beside
  = Done (QuantizedRay [1%float; 0%float]).
Proof. vm_compute. reflexivity. Qed.

(** ** More fuel changes no outcome *)

Lemma stable_const {A : Type} (c : outcome A) : stable (fun _ => c).
Proof. intros fuel fuel' _ _. reflexivity. Qed.

Lemma stable_bind {A B : Type} (f : nat -> outcome A)
    (k : nat -> A -> outcome B) :
  stable f -> (forall a, stable (fun fuel => k fuel a)) ->
  stable (fun fuel => x <- f fuel ;; k fuel x).
Proof.
  intros Hf Hk fuel fuel' Hle Hrun.
  destruct (f fuel) as [a| |] eqn:Hfa; simpl in Hrun.
  - rewrite (Hf fuel fuel' Hle) by (rewrite Hfa; discriminate).
    rewrite Hfa. simpl. apply (Hk a fuel fuel' Hle Hrun).
  - rewrite (Hf fuel fuel' Hle) by (rewrite Hfa; discriminate).
    rewrite Hfa. reflexivity.
  - contradiction.
Qed.

Section Fuel.
Variable distort : Point2d -> double -> Point2d.
Variable distortPointAtInfinity : Point2d -> double -> Point2d.
Variable bisect :
  (double -> double) -> double -> double -> Z -> option (double * double).

Lemma findLargeLambda_stable (x : Point2d) (A B : Vec3 double)
    (delta : double) (intr : CameraProperties) (lambda : double) :
  stable (fun fuel => findLargeLambda distort fuel x A B delta intr lambda).
Proof.
  intros fuel. revert lambda.
  induction fuel as [|fuel IH]; intros lambda fuel' Hle Hrun.
  - contradiction.
  - destruct fuel' as [|fuel']; [lia|]. simpl in *.
    destruct (errorInDistanceFromPoint distort x lambda A B delta intr <? 0)%float.
    + reflexivity.
    + apply IH; [lia|exact Hrun].
Qed.

Lemma quantizeRay_stable (A B : Vec3 double) (delta : double)
    (intr : CameraProperties) (lambda_min lambda : double) (x : Point2d)
    (acc : list double) :
  stable (fun fuel => quantizeRay distort bisect fuel A B delta intr
                        lambda_min lambda x acc).
Proof.
  intros fuel. revert lambda x acc.
  induction fuel as [|fuel IH]; intros lambda x acc fuel' Hle Hrun.
  - contradiction.
  - destruct fuel' as [|fuel']; [lia|]. simpl in *.
    destruct (errorInDistanceFromPoint distort x lambda_min A B delta intr
              <? 0)%float; [reflexivity|].
    destruct (bisect _ lambda_min lambda 16%Z) as [r|]; [|reflexivity].
    destruct (snd r =? lambda)%float; [reflexivity|].
    apply IH; [lia|exact Hrun].
Qed.

Lemma findAnchor_stable (intr : CameraProperties) (A B : Vec3 double)
    (delta : double) :
  stable (fun fuel => findAnchor distort distortPointAtInfinity fuel intr A B
                        delta).
Proof.
  unfold findAnchor.
  destruct (v3_2 B <? 0)%float; [|apply stable_const].
  destruct (v3_2 B =? 0)%float; [apply stable_const|].
  apply stable_bind.
  - apply findLargeLambda_stable.
  - intros lambda. apply stable_const.
Qed.

Lemma searchView_stable (c v : Point3d) (other : Camera) :
  stable (fun fuel => searchView distort distortPointAtInfinity bisect fuel
                        c v other).
Proof.
  unfold searchView. cbv zeta.
  destruct ((0 <? _) && (0 <? _))%float; [apply stable_const|].
  apply stable_bind.
  - apply findAnchor_stable.
  - intros anchor. apply stable_bind.
    + apply quantizeRay_stable.
    + intros lambdas. apply stable_const.
Qed.

Lemma findExtentOfRay_stable (projection : Point2d)
    (pose : CameraPose double) (others : list Camera) :
  stable (fun fuel => findExtentOfRay distort distortPointAtInfinity bisect
                        fuel projection pose others).
Proof.
  unfold findExtentOfRay.
  induction others as [|other rest IH]; simpl.
  - apply stable_const.
  - apply stable_bind.
    + apply searchView_stable.
    + intros r. apply stable_bind.
      * exact IH.
      * intros log. apply stable_const.
Qed.

Lemma findMultiviewTrack_stable (track : Track Point2d)
    (pose : CameraPose double) (other_views : list OtherView) :
  stable (fun fuel => findMultiviewTrack distort distortPointAtInfinity
                        bisect fuel track pose other_views).
Proof.
  unfold findMultiviewTrack. apply stable_bind.
  - induction track as [|point rest IH]; simpl.
    + apply stable_const.
    + apply stable_bind.
      * apply findExtentOfRay_stable.
      * intros log. apply stable_bind.
        -- exact IH.
        -- intros log'. apply stable_const.
  - intros log. apply stable_const.
Qed.

Lemma findMultiviewTracks_stable (tracks : TrackList Point2d)
    (pose : CameraPose double) (other_views : list OtherView) :
  stable (fun fuel => findMultiviewTracks distort distortPointAtInfinity
                        bisect fuel tracks pose other_views).
Proof.
  unfold findMultiviewTracks.
  generalize (MultiviewTrackList_new Point2d (List.length other_views + 1),
              @nil LogRecord).
  induction tracks as [|track rest IH]; intros acc; simpl.
  - apply stable_const.
  - apply stable_bind.
    + apply findMultiviewTrack_stable.
    + intros r. apply IH.
Qed.
End Fuel.

(** ** Order and spacing of the candidates *)

(** C3, as the program has it.  With a root finder that answers inside its
    bracket, the positions of a quantized ray are strictly decreasing along
    lambda: every appended lambda is below the upper bracket it was searched
    under, which is the anchor's for the first one and the previous lambda
    for the others.  The sequence runs from the far end of the ray towards
    [lambda_min]. *)
Theorem c3_candidates_decrease_along_lambda
    (distort distortPointAtInfinity : Point2d -> double -> Point2d)
    (bisect : (double -> double) -> double -> double -> Z
              -> option (double * double))
    (fuel : nat) (c v : Point3d) (other : Camera) (lambdas : list double) :
  stays_in_bracket bisect ->
  searchView distort distortPointAtInfinity bisect fuel c v other
  = Done (QuantizedRay lambdas) ->
  let AB := rayImage (CameraPose_matrix (extrinsics other)) c v in
  decreasing_along_lambda lambdas /\
  exists anchor,
    findAnchor distort distortPointAtInfinity fuel (intrinsics other)
      (fst AB) (snd AB) 1%float = Done anchor /\
    each_step (fun lambda _ l => (l <? lambda)%float = true)
      (pixelAt distort (intrinsics other) (fst AB) (snd AB))
      (fst anchor) (snd anchor) lambdas.
Proof.
  intros Hbracket Hrun AB.
  destruct (searchView_quantized _ _ _ _ _ _ _ Hrun)
    as [_ [anchor [Hanchor Hloop]]].
  apply quantizeRay_steps in Hloop.
  destruct Hloop as [appended [Heq Hall]]. simpl in Heq. subst appended.
  assert (Hbelow : forall lambda x l,
            appended_by distort bisect (fst AB) (snd AB) 1%float
              (intrinsics other)
              (if (v3_2 (fst AB) <? 0)%float then 0%float
               else (- v3_2 (fst AB) / v3_2 (snd AB))%float) lambda x l ->
            (l <? lambda)%float = true).
  { intros lambda x l [_ [r [Hbisect [Hl Hcycle]]]].
    apply leb_neq_ltb; [|exact Hcycle].
    subst l. apply (Hbracket _ _ _ _ _ Hbisect). }
  split.
  - unfold decreasing_along_lambda.
    eapply each_step_consecutive; [|exact Hall]. exact Hbelow.
  - exists anchor. split; [exact Hanchor|].
    eapply each_step_impl; [|exact Hall]. exact Hbelow.
Qed.

Lemma c3_witness :
  stays_in_bracket Fixture.bisect /\
  Scenario.search 100 Scenario.c Scenario.v Fixture.beside
  = Done (QuantizedRay [1%float; 0%float]) /\
  decreasing_along_lambda [1%float; 0%float].
Proof.
  split; [exact fixture_bisect_stays_in_bracket|].
  split; [exact scenario_beside_run|].
  apply (@c3_candidates_decrease_along_lambda _ _ _ _ _ _ _ _
           fixture_bisect_stays_in_bracket scenario_beside_run).
Defined.

(** C3, as the specification words it, fails: the two positions found by the
    camera beside the reference camera are 1 and then 0. *)
Lemma c3_counterexample :
  ~ candidates_increase Fixture.distort Fixture.distortPointAtInfinity
      Fixture.bisect.
Proof.
  intros Hclaim.
  specialize (Hclaim _ _ _ _ _ scenario_beside_run 0%nat 1%float 0%float
                eq_refl eq_refl).
  vm_compute in Hclaim. discriminate.
Qed.








(** ** The multiview track builder *)

Section Builder.
Variable distort : Point2d -> double -> Point2d.
Variable distortPointAtInfinity : Point2d -> double -> Point2d.
Variable bisect :
  (double -> double) -> double -> double -> Z -> option (double * double).

(** A search that ends normally has searched every camera in turn. *)
Lemma searchViews_done (fuel : nat) (c v : Point3d) :
  forall (others : list Camera) (log : list LogRecord),
    searchViews distort distortPointAtInfinity bisect fuel c v others
    = Done log ->
    exists results,
      Forall2
        (fun other r =>
           searchView distort distortPointAtInfinity bisect fuel c v other
           = Done r)
        others results /\
      log = flat_map logOfView results.
Proof.
  induction others as [|other rest IH]; simpl; intros log Hrun.
  - inversion Hrun; subst. exists []. split; [constructor|reflexivity].
  - destruct (searchView _ _ _ fuel c v other) as [r| |] eqn:Hview;
      simpl in Hrun; try discriminate.
    destruct (searchViews _ _ _ fuel c v rest) as [log'| |];
      simpl in Hrun; try discriminate.
    inversion Hrun; subst.
    destruct (IH log' eq_refl) as [results [Hall Hlog]].
    exists (r :: results). split.
    + constructor; [exact Hview|exact Hall].
    + simpl. rewrite Hlog. reflexivity.
Qed.

Lemma searchPoints_done (fuel : nat) (pose : CameraPose double)
    (other_views : list OtherView) :
  forall (points : Track Point2d) (log : list LogRecord),
    searchPoints distort distortPointAtInfinity bisect fuel pose
      (List.map extractCameraFromOtherView other_views) points = Done log ->
    exists per_point,
      Forall2
        (searchedAgainst distort distortPointAtInfinity bisect fuel pose
           other_views)
        points per_point /\
      log = flat_map (flat_map logOfView) per_point.
Proof.
  induction points as [|point rest IH]; simpl; intros log Hrun.
  - inversion Hrun; subst. exists []. split; [constructor|reflexivity].
  - destruct (findExtentOfRay _ _ _ fuel (snd point) pose _)
      as [log1| |] eqn:Hpoint; simpl in Hrun; try discriminate.
    destruct (searchPoints _ _ _ fuel pose _ rest) as [log2| |];
      simpl in Hrun; try discriminate.
    inversion Hrun; subst.
    destruct (IH log2 eq_refl) as [per_point [Hall Hlog]].
    apply searchViews_done in Hpoint.
    destruct Hpoint as [results [Hviews Hlog1]].
    exists (results :: per_point). split.
    + constructor; [|exact Hall].
      unfold searchedAgainst, rayOf. clear - Hviews.
      remember (List.map extractCameraFromOtherView other_views) as cams
        eqn:Hcams.
      revert other_views Hcams.
      induction Hviews as [|cam r cams results Hcam _ IHv];
        intros [|view views] Hcams; try discriminate; constructor.
      * simpl in Hcams. inversion Hcams; subst. exact Hcam.
      * simpl in Hcams. inversion Hcams; subst. apply IHv. reflexivity.
    + simpl. rewrite Hlog1, Hlog. reflexivity.
Qed.

Lemma buildTracks_done (fuel : nat) (pose : CameraPose double)
    (other_views : list OtherView) :
  forall (tracks : TrackList Point2d)
         (acc result : MultiviewTrackList Point2d)
         (log0 log : list LogRecord),
    buildTracks distort distortPointAtInfinity bisect fuel pose other_views
      tracks (acc, log0) = Done (result, log) ->
    num_views result = num_views acc /\
    multiview_tracks result
    = multiview_tracks acc
      ++ List.map
           (fun _ => MultiviewTrack_new Point2d
                       (List.length other_views + 1))
           tracks /\
    exists per_track,
      Forall2
        (Forall2
           (searchedAgainst distort distortPointAtInfinity bisect fuel pose
              other_views))
        tracks per_track /\
      log = log0 ++ flat_map (flat_map (flat_map logOfView)) per_track.
Proof.
  induction tracks as [|track rest IH]; simpl;
    intros acc result log0 log Hrun.
  - inversion Hrun; subst. split; [reflexivity|]. split.
    + symmetry. apply app_nil_r.
    + exists []. split; [constructor|]. symmetry. apply app_nil_r.
  - unfold findMultiviewTrack in Hrun.
    destruct (searchPoints _ _ _ fuel pose _ track) as [log1| |] eqn:Htrack;
      simpl in Hrun; try discriminate.
    apply IH in Hrun. destruct Hrun as [Hn [Hmts [per_track [Hall Hlog]]]].
    apply searchPoints_done in Htrack.
    destruct Htrack as [per_point [Hpoints Hlog1]].
    simpl in Hn, Hmts. split; [exact Hn|]. split.
    + rewrite Hmts, <- app_assoc. reflexivity.
    + exists (per_point :: per_track). split.
      * constructor; assumption.
      * simpl. rewrite Hlog, Hlog1, <- app_assoc. reflexivity.
Qed.
End Builder.

(** C1, as the program has it.  A build that ends normally has run the ray
    extent search for every point of every track against every other
    camera, in the order of the tracks, the points and the views, and its
    log is the log of those searches; the candidates are computed and
    counted but not kept: the output has one multiview track per input
    track, each as its constructor made it for the number of views, with
    every slot empty. *)
Theorem c1_builder_searches_every_view_and_stores_nothing
    (distort distortPointAtInfinity : Point2d -> double -> Point2d)
    (bisect : (double -> double) -> double -> double -> Z
              -> option (double * double))
    (fuel : nat) (tracks : TrackList Point2d) (pose : CameraPose double)
    (other_views : list OtherView)
    (result : MultiviewTrackList Point2d) (log : list LogRecord) :
  findMultiviewTracks distort distortPointAtInfinity bisect fuel tracks pose
    other_views = Done (result, log) ->
  (exists per_track : list (list (list ViewResult)),
     Forall2
       (Forall2
          (searchedAgainst distort distortPointAtInfinity bisect fuel pose
             other_views))
       tracks per_track /\
     log = flat_map (flat_map (flat_map logOfView)) per_track) /\
  num_views result = (List.length other_views + 1)%nat /\
  multiview_tracks result
  = List.map
      (fun _ => MultiviewTrack_new Point2d (List.length other_views + 1))
      tracks /\
  (forall mt slot, In mt (multiview_tracks result) -> In slot mt -> slot = []).
Proof.
  unfold findMultiviewTracks. intros Hrun.
  apply buildTracks_done in Hrun.
  destruct Hrun as [Hn [Hmts Hsearched]]. simpl in Hn, Hmts, Hsearched.
  split; [exact Hsearched|]. split; [exact Hn|]. split; [exact Hmts|].
  intros mt slot Hmt Hslot. rewrite Hmts in Hmt.
  apply in_map_iff in Hmt. destruct Hmt as [_ [Hnew _]]. subst mt.
  unfold MultiviewTrack_new in Hslot.
  apply repeat_spec in Hslot. exact Hslot.
Qed.

Lemma scenario_build_run :
  Scenario.build 100 [Scenario.center_track] Fixture.reference
    Scenario.one_view
  = Done ({| num_views := 2; multiview_tracks := [[[]; []]] |},
          [QuantizedInto 2]).
Proof. vm_compute. reflexivity. Qed.

Lemma c1_witness :
  Scenario.build 100 [Scenario.center_track] Fixture.reference
    Scenario.one_view
  = Done ({| num_views := 2; multiview_tracks := [[[]; []]] |},
          [QuantizedInto 2]) /\
  forall mt slot, In mt [[([] : Track Point2d); []]] -> In slot mt -> slot = [].
Proof.
  split; [exact scenario_build_run|].
  apply (@c1_builder_searches_every_view_and_stores_nothing _ _ _ _ _ _ _ _ _
           scenario_build_run).
Defined.

(** C1, as the specification words it, fails: for the one point of the one
    track the camera beside the reference camera yields two candidate
    positions, and both slots of the multiview track are empty. *)
Lemma c1_counterexample :
  ~ slots_hold_candidates Fixture.distort Fixture.distortPointAtInfinity
      Fixture.bisect 100 [Scenario.center_track] Fixture.reference
      Scenario.one_view.
Proof.
  intros Hclaim.
  destruct (Hclaim _ _ scenario_build_run 0%nat Scenario.center_track
              (0%Z, Point2 0 0)%float
              {| index := 1%Z; camera := Fixture.beside |}
              (QuantizedRay [1%float; 0%float]))
    as [mt [slot [Hmt [Hslot Hfull]]]].
  - reflexivity.
  - left. reflexivity.
  - left. reflexivity.
  - exact scenario_beside_run.
  - discriminate.
  - simpl in Hmt. inversion Hmt; subst mt.
    destruct Hslot as [Hs|[Hs|[]]]; subst slot; apply Hfull; reflexivity.
Qed.

(** ** Visibility of the ray in another camera *)

Lemma bind_Done_id {A : Type} (c : outcome A) : (x <- c ;; Done x) = c.
Proof. destruct c; reflexivity. Qed.

(** Views that end normally before a view decide nothing about it. *)
Lemma searchViews_app
    (distort distortPointAtInfinity : Point2d -> double -> Point2d)
    (bisect : (double -> double) -> double -> double -> Z
              -> option (double * double))
    (fuel : nat) (c v : Point3d) (before : list Camera)
    (results : list ViewResult) (others : list Camera) :
  Forall2
    (fun other r =>
       searchView distort distortPointAtInfinity bisect fuel c v other
       = Done r)
    before results ->
  searchViews distort distortPointAtInfinity bisect fuel c v
    (before ++ others)
  = (log <- searchViews distort distortPointAtInfinity bisect fuel c v
              others ;;
     Done (flat_map logOfView results ++ log)).
Proof.
  intros Hbefore.
  induction Hbefore as [|other r before results Hview _ IH]; simpl.
  - symmetry. apply bind_Done_id.
  - rewrite Hview, IH. simpl.
    destruct (searchViews _ _ _ fuel c v others) as [log| |]; simpl;
      try reflexivity.
    rewrite app_assoc. reflexivity.
Qed.

(** C4.  When the third entries of [A = P * C] and [B = P * V] are both
    positive, the view is skipped whatever the fuel: no loop is entered, no
    candidate position is produced for it, nothing is logged and nothing is
    aborted, and the search goes on with the remaining cameras as if the
    camera had not been in the list. *)
Theorem c4_ray_behind_camera_yields_nothing
    (distort distortPointAtInfinity : Point2d -> double -> Point2d)
    (bisect : (double -> double) -> double -> double -> Z
              -> option (double * double))
    (fuel : nat) (projection : Point2d) (pose : CameraPose double)
    (before : list Camera) (results : list ViewResult)
    (other : Camera) (rest : list Camera) :
  let c := center pose in
  let v := rayDirection (rotation pose) projection in
  let AB := rayImage (CameraPose_matrix (extrinsics other)) c v in
  (0 <? v3_2 (fst AB))%float = true ->
  (0 <? v3_2 (snd AB))%float = true ->
  Forall2
    (fun cam r =>
       searchView distort distortPointAtInfinity bisect fuel c v cam = Done r)
    before results ->
  (exists r,
     searchView distort distortPointAtInfinity bisect fuel c v other = Done r /\
     candidateLambdas r = [] /\ logOfView r = []) /\
  findExtentOfRay distort distortPointAtInfinity bisect fuel projection pose
    (before ++ other :: rest)
  = findExtentOfRay distort distortPointAtInfinity bisect fuel projection
      pose (before ++ rest).
Proof.
  intros c v AB Ha Hb Hbefore.
  assert (Hview : searchView distort distortPointAtInfinity bisect fuel c v
                    other = Done NotObserved).
  { unfold searchView. fold AB. rewrite Ha, Hb. reflexivity. }
  split.
  - exists NotObserved. auto.
  - unfold findExtentOfRay. fold c v.
    rewrite !(@searchViews_app distort distortPointAtInfinity bisect fuel c v
                before results _ Hbefore).
    simpl. rewrite Hview. simpl.
    rewrite bind_Done_id. reflexivity.
Qed.

Lemma c4_witness :
  let AB := rayImage (CameraPose_matrix (extrinsics Scenario.facing_away))
              Scenario.c Scenario.v in
  ((0 <? v3_2 (fst AB))%float = true /\ (0 <? v3_2 (snd AB))%float = true) /\
  findExtentOfRay Fixture.distort Fixture.distortPointAtInfinity
    Fixture.bisect 0 (Point2 0 0)%float Fixture.reference
    [Scenario.facing_away]
  = Done [].
Proof.
  assert (Ha : (0 <? v3_2 (fst (rayImage
                   (CameraPose_matrix (extrinsics Scenario.facing_away))
                   Scenario.c Scenario.v)))%float = true)
    by (vm_compute; reflexivity).
  assert (Hb : (0 <? v3_2 (snd (rayImage
                   (CameraPose_matrix (extrinsics Scenario.facing_away))
                   Scenario.c Scenario.v)))%float = true)
    by (vm_compute; reflexivity).
  split; [split; assumption|].
  destruct (@c4_ray_behind_camera_yields_nothing Fixture.distort
              Fixture.distortPointAtInfinity Fixture.bisect 0
              (Point2 0 0)%float Fixture.reference [] []
              Scenario.facing_away [] Ha Hb (Forall2_nil _)) as [_ Hskip].
  simpl in Hskip. rewrite Hskip. reflexivity.
Defined.

(** C5.  In a view that is not skipped, the quantization loop is run with
    the lower bound 0 when [a3 < 0] and with [-a3 / b3] otherwise. *)
Theorem c5_lower_search_bound
    (distort distortPointAtInfinity : Point2d -> double -> Point2d)
    (bisect : (double -> double) -> double -> double -> Z
              -> option (double * double))
    (fuel : nat) (c v : Point3d) (other : Camera) :
  let AB := rayImage (CameraPose_matrix (extrinsics other)) c v in
  let A := fst AB in
  let B := snd AB in
  let a3 := v3_2 A in
  let b3 := v3_2 B in
  ((0 <? a3) && (0 <? b3))%float = false ->
  exists lambda_min : double,
    ((a3 <? 0)%float = true -> lambda_min = 0%float) /\
    ((a3 <? 0)%float = false -> lambda_min = (- a3 / b3)%float) /\
    searchView distort distortPointAtInfinity bisect fuel c v other
    = (anchor <- findAnchor distort distortPointAtInfinity fuel
                   (intrinsics other) A B 1%float ;;
       lambdas <- quantizeRay distort bisect fuel A B 1%float
                    (intrinsics other) lambda_min (fst anchor) (snd anchor)
                    [] ;;
       Done (QuantizedRay lambdas)).
Proof.
  intros AB A B a3 b3 Hseen.
  exists (if (a3 <? 0)%float then 0%float else (- a3 / b3)%float).
  split; [|split].
  - intros Hfront. rewrite Hfront. reflexivity.
  - intros Hbehind. rewrite Hbehind. reflexivity.
  - unfold searchView. fold AB A B a3 b3. rewrite Hseen. reflexivity.
Qed.

Lemma c5_witness :
  let AB := rayImage (CameraPose_matrix (extrinsics Fixture.beside))
              Scenario.c Scenario.v in
  ((0 <? v3_2 (fst AB)) && (0 <? v3_2 (snd AB)))%float = false /\
  (v3_2 (fst AB) <? 0)%float = true /\
  exists lambda_min : double,
    lambda_min = 0%float /\
    Scenario.search 100 Scenario.c Scenario.v Fixture.beside
    = (anchor <- findAnchor Fixture.distort Fixture.distortPointAtInfinity
                   100 Fixture.plain (fst AB) (snd AB) 1%float ;;
       lambdas <- quantizeRay Fixture.distort Fixture.bisect 100 (fst AB)
                    (snd AB) 1%float Fixture.plain lambda_min (fst anchor)
                    (snd anchor) [] ;;
       Done (QuantizedRay lambdas)).
Proof.
  intros AB.
  assert (Hseen : ((0 <? v3_2 (fst AB)) && (0 <? v3_2 (snd AB)))%float
                  = false) by (vm_compute; reflexivity).
  assert (Hfront : (v3_2 (fst AB) <? 0)%float = true)
    by (vm_compute; reflexivity).
  split; [exact Hseen|]. split; [exact Hfront|].
  destruct (@c5_lower_search_bound Fixture.distort
              Fixture.distortPointAtInfinity Fixture.bisect 100 Scenario.c
              Scenario.v Fixture.beside Hseen) as [lambda_min [H0 [_ Hrun]]].
  exists lambda_min. split; [exact (H0 Hfront)|exact Hrun].
Defined.

(** ** The limit-cycle guard *)

Section LimitCycle.
Variable distort : Point2d -> double -> Point2d.
Variable distortPointAtInfinity : Point2d -> double -> Point2d.
Variable bisect :
  (double -> double) -> double -> double -> Z -> option (double * double).

(** The loop is a loop: after the passes that appended [appended] it is in
    the state those passes left, with that much less fuel. *)
Lemma quantizeRay_resume (A B : Vec3 double) (delta : double)
    (intr : CameraProperties) (lambda_min : double) (fuel : nat) :
  forall appended lambda x acc,
    each_step (appended_by distort bisect A B delta intr lambda_min)
      (pixelAt distort intr A B) lambda x appended ->
    let state := loopState (pixelAt distort intr A B) lambda x appended in
    quantizeRay distort bisect (List.length appended + fuel) A B delta intr
      lambda_min lambda x acc
    = quantizeRay distort bisect fuel A B delta intr lambda_min
        (fst state) (snd state) (acc ++ appended).
Proof.
  induction appended as [|l rest IH]; intros lambda x acc Hall; simpl.
  - rewrite app_nil_r. reflexivity.
  - destruct Hall as [[Hfmax [r [Hbisect [Hl Hcycle]]]] Hrest].
    rewrite Hfmax, Hbisect. subst l. rewrite Hcycle.
    replace (acc ++ snd r :: rest) with ((acc ++ [snd r]) ++ rest)
      by (rewrite <- app_assoc; reflexivity).
    exact (IH _ _ (acc ++ [snd r]) Hrest).
Qed.

(** A pass on which [bisect] answers with the upper bracket it was given
    ends the loop with the failed check. *)
Lemma quantizeRay_limit_cycle (A B : Vec3 double) (delta : double)
    (intr : CameraProperties) (lambda_min lambda : double) (x : Point2d)
    (acc : list double) (fuel : nat) (r : double * double) :
  (errorInDistanceFromPoint distort x lambda_min A B delta intr <? 0)%float
  = false ->
  bisect (fun l => errorInDistanceFromPoint distort x l A B delta intr)
    lambda_min lambda 16%Z = Some r ->
  (snd r =? lambda)%float = true ->
  quantizeRay distort bisect (S fuel) A B delta intr lambda_min lambda x acc
  = Fatal "Check failed: lambda != old_lambda Entered limit cycle".
Proof.
  intros Hfmax Hbisect Hcycle. simpl.
  rewrite Hfmax, Hbisect, Hcycle. reflexivity.
Qed.
End LimitCycle.

(** C9.  Let the quantization loop of a view have appended any number of
    positions.  If on its next pass the residual at [lambda_min] is not
    negative and [bisect] returns a bracket whose upper end equals the
    upper bracket it was given, then the search of that view ends in the
    failed check "Entered limit cycle": no position is appended, no result
    is returned for the view, and [findExtentOfRay], having come to that
    view, is aborted with it. *)
Theorem c9_limit_cycle_aborts_the_search
    (distort distortPointAtInfinity : Point2d -> double -> Point2d)
    (bisect : (double -> double) -> double -> double -> Z
              -> option (double * double))
    (fuel : nat) (projection : Point2d) (pose : CameraPose double)
    (before : list Camera) (results : list ViewResult)
    (other : Camera) (rest : list Camera)
    (anchor : double * Point2d) (appended : list double)
    (r : double * double) :
  let c := center pose in
  let v := rayDirection (rotation pose) projection in
  let AB := rayImage (CameraPose_matrix (extrinsics other)) c v in
  let A := fst AB in
  let B := snd AB in
  let intr := intrinsics other in
  let lambda_min :=
    if (v3_2 A <? 0)%float then 0%float else (- v3_2 A / v3_2 B)%float in
  let state :=
    loopState (pixelAt distort intr A B) (fst anchor) (snd anchor) appended in
  Forall2
    (fun cam r =>
       searchView distort distortPointAtInfinity bisect fuel c v cam = Done r)
    before results ->
  ((0 <? v3_2 A) && (0 <? v3_2 B))%float = false ->
  findAnchor distort distortPointAtInfinity fuel intr A B 1%float
  = Done anchor ->
  each_step (appended_by distort bisect A B 1%float intr lambda_min)
    (pixelAt distort intr A B) (fst anchor) (snd anchor) appended ->
  (List.length appended < fuel)%nat ->
  (errorInDistanceFromPoint distort (snd state) lambda_min A B 1%float intr
   <? 0)%float = false ->
  bisect
    (fun l => errorInDistanceFromPoint distort (snd state) l A B 1%float intr)
    lambda_min (fst state) 16%Z = Some r ->
  (snd r =? fst state)%float = true ->
  searchView distort distortPointAtInfinity bisect fuel c v other
  = Fatal "Check failed: lambda != old_lambda Entered limit cycle" /\
  findExtentOfRay distort distortPointAtInfinity bisect fuel projection pose
    (before ++ other :: rest)
  = Fatal "Check failed: lambda != old_lambda Entered limit cycle".
Proof.
  intros c v AB A B intr lambda_min state Hbefore Hseen Hanchor Hall Hfuel
    Hfmax Hbisect Hcycle.
  assert (Hview : searchView distort distortPointAtInfinity bisect fuel c v
                    other
                  = Fatal "Check failed: lambda != old_lambda Entered limit cycle").
  { unfold searchView. fold AB A B intr lambda_min.
    rewrite Hseen, Hanchor. simpl.
    replace fuel
      with (List.length appended + S (fuel - S (List.length appended)))%nat
      by lia.
    rewrite (@quantizeRay_resume distort bisect A B 1%float intr lambda_min
               (S (fuel - S (List.length appended))) appended (fst anchor)
               (snd anchor) [] Hall).
    fold state.
    rewrite (@quantizeRay_limit_cycle distort bisect A B 1%float intr
               lambda_min (fst state) (snd state) ([] ++ appended)
               (fuel - S (List.length appended)) r Hfmax Hbisect Hcycle).
    reflexivity. }
  split; [exact Hview|].
  unfold findExtentOfRay. fold c v.
  rewrite (@searchViews_app distort distortPointAtInfinity bisect fuel c v
             before results _ Hbefore).
  simpl. rewrite Hview. reflexivity.
Qed.

Lemma c9_witness :
  Scenario.search 100 Scenario.c Scenario.v Scenario.turned
  = Fatal "Check failed: lambda != old_lambda Entered limit cycle" /\
  findExtentOfRay Fixture.distort Fixture.distortPointAtInfinity
    Fixture.bisect 100 (Point2 0 0)%float Fixture.reference [Scenario.turned]
  = Fatal "Check failed: lambda != old_lambda Entered limit cycle".
Proof.
  apply (@c9_limit_cycle_aborts_the_search Fixture.distort
           Fixture.distortPointAtInfinity Fixture.bisect 100
           (Point2 0 0)%float Fixture.reference [] [] Scenario.turned []
           (1%float, Point2 4 0)%float []
           (0.9999847412109375%float, 1%float)).
  - constructor.
  - vm_compute. reflexivity.
  - vm_compute. reflexivity.
  - exact I.
  - simpl. lia.
  - vm_compute. reflexivity.
  - vm_compute. reflexivity.
  - vm_compute. reflexivity.
Defined.

(** ** Division by a zero depth *)

Lemma eqb_zero_not_ltb (x : double) :
  (x =? 0)%float = true -> (0 <? x)%float = false /\ (x <? 0)%float = false.
Proof.
  rewrite eqb_spec, !ltb_spec.
  change (Prim2SF 0%float) with (S754_zero false).
  destruct (Prim2SF x) as [s|s| |s m e]; try destruct s; simpl;
    intros Heq; try discriminate; split; reflexivity.
Qed.

Lemma ltb_zero_asym (x : double) :
  (0 <? x)%float = true -> (x <? 0)%float = false.
Proof.
  rewrite !ltb_spec.
  change (Prim2SF 0%float) with (S754_zero false).
  destruct (Prim2SF x) as [s|s| |s m e]; try destruct s; simpl;
    intros Hlt; try discriminate; reflexivity.
Qed.

(** A view whose [a3] is positive and whose [b3] is zero is not skipped,
    and both the lower bound and the anchor's bracket are [-a3 / b3]. *)
Lemma searchView_zero_depth
    (distort distortPointAtInfinity : Point2d -> double -> Point2d)
    (bisect : (double -> double) -> double -> double -> Z
              -> option (double * double))
    (fuel : nat) (c v : Point3d) (other : Camera) :
  let AB := rayImage (CameraPose_matrix (extrinsics other)) c v in
  let A := fst AB in
  let B := snd AB in
  let a3 := v3_2 A in
  let b3 := v3_2 B in
  let intr := intrinsics other in
  (0 <? a3)%float = true ->
  (b3 =? 0)%float = true ->
  ((0 <? a3) && (0 <? b3))%float = false /\
  searchView distort distortPointAtInfinity bisect fuel c v other
  = (let lambda := (- a3 / b3)%float in
     let X := rayPoint A B lambda in
     let x := Point2 (v3_0 X) (v3_1 X) in
     let x := distortPointAtInfinity x (distort_w intr) in
     let x := uncalibrate intr x in
     lambdas <- quantizeRay distort bisect fuel A B 1%float intr
                  lambda lambda x [] ;;
     Done (QuantizedRay lambdas)).
Proof.
  intros AB A B a3 b3 intr Ha Hb.
  destruct (eqb_zero_not_ltb Hb) as [Hb1 Hb2].
  pose proof (ltb_zero_asym Ha) as Ha'.
  split.
  - rewrite Ha, Hb1. reflexivity.
  - unfold searchView, findAnchor. fold AB A B a3 b3 intr.
    rewrite Ha, Hb1, Ha', Hb2. simpl. reflexivity.
Qed.

(** C10.  Neither [-a3 / b3] of [findExtentOfRay] is guarded by a test of
    [b3].  There is an input, two cameras whose optical axes are
    perpendicular, for which [a3 > 0] and [b3 = 0]: the view is not skipped,
    both branches that divide are taken, and the quotient, minus infinity,
    becomes the lower bound and the upper bracket of the quantization loop
    whatever the lens and the root finder are; the homogeneous point of the
    anchor then has a depth that is not a number. *)
Theorem c10_division_by_zero_depth_is_reached :
  exists (projection : Point2d) (pose : CameraPose double) (other : Camera),
    let c := center pose in
    let v := rayDirection (rotation pose) projection in
    let AB := rayImage (CameraPose_matrix (extrinsics other)) c v in
    let A := fst AB in
    let B := snd AB in
    let a3 := v3_2 A in
    let b3 := v3_2 B in
    let intr := intrinsics other in
    (0 <? a3)%float = true /\ (b3 =? 0)%float = true /\
    ((0 <? a3) && (0 <? b3))%float = false /\
    (a3 <? 0)%float = false /\ (b3 <? 0)%float = false /\
    (- a3 / b3 =? neg_infinity)%float = true /\
    PrimFloat.is_nan (v3_2 (rayPoint A B (- a3 / b3)%float)) = true /\
    forall (distort distortPointAtInfinity : Point2d -> double -> Point2d)
           (bisect : (double -> double) -> double -> double -> Z
                     -> option (double * double))
           (fuel : nat),
      searchView distort distortPointAtInfinity bisect fuel c v other
      = (let lambda := (- a3 / b3)%float in
         let X := rayPoint A B lambda in
         let x := Point2 (v3_0 X) (v3_1 X) in
         let x := distortPointAtInfinity x (distort_w intr) in
         let x := uncalibrate intr x in
         lambdas <- quantizeRay distort bisect fuel A B 1%float intr
                      lambda lambda x [] ;;
         Done (QuantizedRay lambdas)).
Proof.
  exists (Point2 0 0)%float, Fixture.reference, Scenario.perpendicular.
  intros c v AB A B a3 b3 intr.
  assert (Ha : (0 <? a3)%float = true) by (vm_compute; reflexivity).
  assert (Hb : (b3 =? 0)%float = true) by (vm_compute; reflexivity).
  split; [exact Ha|]. split; [exact Hb|].
  split; [vm_compute; reflexivity|].
  split; [vm_compute; reflexivity|].
  split; [vm_compute; reflexivity|].
  split; [vm_compute; reflexivity|].
  split; [vm_compute; reflexivity|].
  intros distort distortPointAtInfinity bisect fuel.
  apply (@searchView_zero_depth distort distortPointAtInfinity bisect fuel c v
           Scenario.perpendicular Ha Hb).
Qed.

(** ** The ray of a calibrated point *)







Section NonNegative.
Variable distort : Point2d -> double -> Point2d.
Variable distortPointAtInfinity : Point2d -> double -> Point2d.
Variable bisect :
  (double -> double) -> double -> double -> Z -> option (double * double).

End NonNegative.




(** * Further properties of the search *)

Unset Implicit Arguments.

(** ** The doubling loop *)

Lemma doubled_shift (lambda : double) (n : nat) :
  doubled (lambda * 2)%float n = doubled lambda (S n).
Proof.
  unfold doubled. rewrite Nat.iter_succ_r. reflexivity.
Qed.

(** X1.  The doubling loop returns exactly when one of its trials
    [lambda], [2 lambda], [4 lambda], ... has a negative residual within the
    fuel, and then it returns twice the first such trial, not the trial
    itself; it is never aborted. *)
Theorem findLargeLambda_returns_twice_first_negative_trial
    (distort : Point2d -> double -> Point2d)
    (x : Point2d) (A B : Vec3 double) (delta : double)
    (intr : CameraProperties) :
  forall (fuel : nat) (lambda result : double),
    let residual := fun l =>
      errorInDistanceFromPoint distort x l A B delta intr in
    (findLargeLambda distort fuel x A B delta intr lambda = Done result <->
     exists n, (n < fuel)%nat /\
       (residual (doubled lambda n) <? 0)%float = true /\
       (forall m, (m < n)%nat ->
          (residual (doubled lambda m) <? 0)%float = false) /\
       result = doubled lambda (S n)) /\
    (forall msg,
       findLargeLambda distort fuel x A B delta intr lambda <> Fatal msg).
Proof.
  induction fuel as [|fuel IH]; intros lambda result residual.
  - split; [split|].
    + discriminate.
    + intros [n [Hn _]]. lia.
    + discriminate.
  - simpl.
    destruct (errorInDistanceFromPoint distort x lambda A B delta intr <? 0)%float
      eqn:Hneg.
    + split; [split|].
      * intros Hrun. inversion Hrun; subst. exists 0%nat.
        repeat split; [lia|exact Hneg|intros m Hm; lia].
      * intros [n [_ [Hn [Hfirst Hres]]]].
        destruct n as [|n].
        -- subst result. reflexivity.
        -- specialize (Hfirst 0%nat (Nat.lt_0_succ n)). simpl in Hfirst.
           unfold residual in Hfirst. congruence.
      * discriminate.
    + destruct (IH (lambda * 2)%float result) as [[Hto Hfrom] Hfatal].
      split; [split|].
      * intros Hrun. destruct (Hto Hrun) as [n [Hn [Hneg' [Hfirst Hres]]]].
        exists (S n). rewrite doubled_shift in Hneg', Hres.
        repeat split; [lia|exact Hneg'| |exact Hres].
        intros [|m] Hm; [exact Hneg|].
        rewrite <- doubled_shift. apply Hfirst. lia.
      * intros [n [Hn [Hneg' [Hfirst Hres]]]].
        destruct n as [|n].
        -- simpl in Hneg'. unfold residual in Hneg'. congruence.
        -- apply Hfrom. exists n. rewrite !doubled_shift.
           repeat split; [lia|exact Hneg'| |exact Hres].
           intros m Hm. rewrite doubled_shift. apply Hfirst. lia.
      * exact Hfatal.
Qed.

(** ** What can abort a search *)

Lemma ltb_not_eqb (x y : double) :
  (x <? y)%float = true -> (x =? y)%float = false.
Proof.
  rewrite ltb_spec, eqb_spec. unfold SFltb, SFeqb.
  destruct (SFcompare (Prim2SF x) (Prim2SF y)) as [[]|]; congruence.
Qed.

Lemma aborts_only_with_Done {A : Type} (P : string -> Prop) (a : A) :
  aborts_only_with P (Done a).
Proof. intros msg Habs. discriminate. Qed.

Lemma aborts_only_with_OutOfFuel {A : Type} (P : string -> Prop) :
  aborts_only_with P (@OutOfFuel A).
Proof. intros msg Habs. discriminate. Qed.

Lemma aborts_only_with_bind {A B : Type} (P : string -> Prop)
    (c : outcome A) (k : A -> outcome B) :
  aborts_only_with P c -> (forall a, aborts_only_with P (k a)) ->
  aborts_only_with P (x <- c ;; k x).
Proof.
  intros Hc Hk msg Habs. destruct c as [a| |]; simpl in Habs.
  - apply (Hk a msg Habs).
  - apply Hc. inversion Habs. reflexivity.
  - discriminate.
Qed.

Lemma findLargeLambda_not_fatal (distort : Point2d -> double -> Point2d)
    (x : Point2d) (A B : Vec3 double) (delta : double)
    (intr : CameraProperties) :
  forall (fuel : nat) (lambda : double),
    aborts_only_with (fun _ => False)
      (findLargeLambda distort fuel x A B delta intr lambda).
Proof.
  induction fuel as [|fuel IH]; intros lambda; simpl.
  - apply aborts_only_with_OutOfFuel.
  - destruct (errorInDistanceFromPoint distort x lambda A B delta intr <? 0)%float.
    + apply aborts_only_with_Done.
    + apply IH.
Qed.

(** X2.  [findAnchor] is never aborted: the check [B.at<double>(2, 0) != 0]
    of line 165 stands in the branch [b3 < 0], where it cannot fail, and the
    doubling loop has no check of its own.  When [b3 < 0] does not hold, the
    anchor is there without any loop, whatever the fuel. *)
Theorem findAnchor_is_never_aborted
    (distort distortPointAtInfinity : Point2d -> double -> Point2d)
    (fuel : nat) (intr : CameraProperties) (A B : Vec3 double)
    (delta : double) :
  (forall msg,
     findAnchor distort distortPointAtInfinity fuel intr A B delta
     <> Fatal msg) /\
  ((v3_2 B <? 0)%float = false ->
   findAnchor distort distortPointAtInfinity fuel intr A B delta
   = findAnchor distort distortPointAtInfinity 0 intr A B delta /\
   exists anchor,
     findAnchor distort distortPointAtInfinity 0 intr A B delta
     = Done anchor).
Proof.
  split.
  - intros msg Habs. unfold findAnchor in Habs.
    destruct (v3_2 B <? 0)%float eqn:Hb; [|discriminate].
    rewrite (ltb_not_eqb _ _ Hb) in Habs.
    destruct (findLargeLambda _ _ _ _ _ _ _ _) as [l| |] eqn:Hloop;
      simpl in Habs; try discriminate.
    exact (findLargeLambda_not_fatal _ _ _ _ _ _ _ _ _ Hloop).
  - intros Hb. unfold findAnchor. rewrite Hb. split; [reflexivity|].
    eexists. reflexivity.
Qed.

Section Aborts.
Variable distort : Point2d -> double -> Point2d.
Variable distortPointAtInfinity : Point2d -> double -> Point2d.
Variable bisect :
  (double -> double) -> double -> double -> Z -> option (double * double).

Lemma findAnchor_not_fatal (fuel : nat) (intr : CameraProperties)
    (A B : Vec3 double) (delta : double) :
  aborts_only_with isSearchAbort
    (findAnchor distort distortPointAtInfinity fuel intr A B delta).
Proof.
  unfold findAnchor.
  destruct (v3_2 B <? 0)%float eqn:Hb; [|apply aborts_only_with_Done].
  rewrite (ltb_not_eqb _ _ Hb).
  apply aborts_only_with_bind.
  - intros msg Habs.
    destruct (findLargeLambda_not_fatal _ _ _ _ _ _ _ _ _ Habs).
  - intros lambda. apply aborts_only_with_Done.
Qed.

Lemma quantizeRay_aborts (A B : Vec3 double) (delta : double)
    (intr : CameraProperties) (lambda_min : double) :
  forall (fuel : nat) (lambda : double) (x : Point2d) (acc : list double),
    aborts_only_with isSearchAbort
      (quantizeRay distort bisect fuel A B delta intr lambda_min lambda x
         acc).
Proof.
  induction fuel as [|fuel IH]; intros lambda x acc; simpl.
  - apply aborts_only_with_OutOfFuel.
  - destruct (errorInDistanceFromPoint distort x lambda_min A B delta intr
              <? 0)%float; [apply aborts_only_with_Done|].
    destruct (bisect _ lambda_min lambda 16%Z) as [r|].
    + destruct (snd r =? lambda)%float.
      * intros msg Habs. inversion Habs. left. reflexivity.
      * apply IH.
    + intros msg Habs. inversion Habs. right. reflexivity.
Qed.

Lemma searchView_aborts (fuel : nat) (c v : Point3d) (other : Camera) :
  aborts_only_with isSearchAbort
    (searchView distort distortPointAtInfinity bisect fuel c v other).
Proof.
  unfold searchView. cbv zeta.
  destruct ((0 <? _) && (0 <? _))%float; [apply aborts_only_with_Done|].
  apply aborts_only_with_bind.
  - apply findAnchor_not_fatal.
  - intros anchor. apply aborts_only_with_bind.
    + apply quantizeRay_aborts.
    + intros lambdas. apply aborts_only_with_Done.
Qed.

(** An abort of the search over the cameras is the abort of one of them. *)
Lemma searchViews_fatal (fuel : nat) (c v : Point3d) (msg : string) :
  forall others : list Camera,
    searchViews distort distortPointAtInfinity bisect fuel c v others
    = Fatal msg ->
    exists other, In other others /\
      searchView distort distortPointAtInfinity bisect fuel c v other
      = Fatal msg.
Proof.
  induction others as [|other rest IH]; simpl; intros Habs.
  - discriminate.
  - destruct (searchView _ _ _ fuel c v other) as [r| |] eqn:Hview;
      simpl in Habs.
    + destruct (searchViews _ _ _ fuel c v rest) as [log| |];
        simpl in Habs; try discriminate.
      destruct (IH Habs) as [o [Hin Ho]]. exists o. auto.
    + exists other. inversion Habs; subst. auto.
    + discriminate.
Qed.

Lemma searchPoints_fatal (fuel : nat) (pose : CameraPose double)
    (cameras : list Camera) (msg : string) :
  forall points : Track Point2d,
    searchPoints distort distortPointAtInfinity bisect fuel pose cameras
      points = Fatal msg ->
    exists point other, In point points /\ In other cameras /\
      searchView distort distortPointAtInfinity bisect fuel (center pose)
        (rayOf pose point) other = Fatal msg.
Proof.
  induction points as [|point rest IH]; simpl; intros Habs.
  - discriminate.
  - destruct (findExtentOfRay _ _ _ fuel (snd point) pose cameras)
      as [log| |] eqn:Hpoint; simpl in Habs.
    + destruct (searchPoints _ _ _ fuel pose cameras rest) as [log'| |];
        simpl in Habs; try discriminate.
      destruct (IH Habs) as [p [o [Hp [Ho Hview]]]]. exists p, o. auto.
    + inversion Habs; subst.
      destruct (searchViews_fatal _ _ _ _ _ Hpoint) as [o [Ho Hview]].
      exists point, o. auto.
    + discriminate.
Qed.

Lemma buildTracks_fatal (fuel : nat) (pose : CameraPose double)
    (other_views : list OtherView) (msg : string) :
  forall (tracks : TrackList Point2d)
         (acc : MultiviewTrackList Point2d * list LogRecord),
    buildTracks distort distortPointAtInfinity bisect fuel pose other_views
      tracks acc = Fatal msg ->
    exists track point view,
      In track tracks /\ In point track /\ In view other_views /\
      searchView distort distortPointAtInfinity bisect fuel (center pose)
        (rayOf pose point) (camera view) = Fatal msg.
Proof.
  induction tracks as [|track rest IH]; simpl; intros acc Habs.
  - discriminate.
  - unfold findMultiviewTrack in Habs.
    destruct (searchPoints _ _ _ fuel pose _ track) as [log| |] eqn:Htrack;
      simpl in Habs.
    + destruct (IH _ Habs) as [t [p [w [Ht [Hp [Hw Hview]]]]]].
      exists t, p, w. auto.
    + inversion Habs; subst.
      destruct (searchPoints_fatal _ _ _ _ _ Htrack)
        as [p [o [Hp [Ho Hview]]]].
      apply in_map_iff in Ho. destruct Ho as [w [Hw Hin]]. subst o.
      exists track, p, w. auto.
    + discriminate.
Qed.
End Aborts.

(** X3.  A build is aborted only by the search of one of its views: when
    [findMultiviewTracks] ends with a fatal message, some point of some
    track was searched in some other view with that same ending, and the
    message is the failed limit-cycle check or the exception of [bisect];
    the builder has no abort of its own. *)
Theorem build_is_aborted_only_by_a_search
    (distort distortPointAtInfinity : Point2d -> double -> Point2d)
    (bisect : (double -> double) -> double -> double -> Z
              -> option (double * double))
    (fuel : nat) (tracks : TrackList Point2d) (pose : CameraPose double)
    (other_views : list OtherView) (msg : string) :
  findMultiviewTracks distort distortPointAtInfinity bisect fuel tracks pose
    other_views = Fatal msg ->
  isSearchAbort msg /\
  exists track point view,
    In track tracks /\ In point track /\ In view other_views /\
    searchView distort distortPointAtInfinity bisect fuel (center pose)
      (rayOf pose point) (camera view) = Fatal msg.
Proof.
  unfold findMultiviewTracks. intros Habs.
  destruct (buildTracks_fatal _ _ _ _ _ _ _ _ _ Habs)
    as [track [point [view [Ht [Hp [Hw Hview]]]]]].
  split.
  - apply (searchView_aborts _ _ _ _ _ _ _ _ Hview).
  - exists track, point, view. auto.
Qed.

Lemma build_is_aborted_only_by_a_search_witness :
  Scenario.build 100 [Scenario.center_track] Fixture.reference
    [{| index := 1%Z; camera := Scenario.turned |}]
  = Fatal "Check failed: lambda != old_lambda Entered limit cycle" /\
  isSearchAbort "Check failed: lambda != old_lambda Entered limit cycle".
Proof.
  assert (Hrun : Scenario.build 100 [Scenario.center_track] Fixture.reference
                   [{| index := 1%Z; camera := Scenario.turned |}]
                 = Fatal "Check failed: lambda != old_lambda Entered limit cycle")
    by (vm_compute; reflexivity).
  split; [exact Hrun|].
  apply (build_is_aborted_only_by_a_search _ _ _ _ _ _ _ _ Hrun).
Defined.

(** ** Where a quantized ray ends *)

Lemma loopState_snoc (pixel : double -> Point2d) (lambda : double)
    (x : Point2d) (l : double) (rest : list double) :
  loopState pixel lambda x (l :: rest) = loopState pixel l (pixel l) rest.
Proof. reflexivity. Qed.

(** A run of the loop that ends normally ends in a state from which the
    residual at [lambda_min] is negative. *)
Lemma quantizeRay_exit
    (distort : Point2d -> double -> Point2d)
    (bisect : (double -> double) -> double -> double -> Z
              -> option (double * double))
    (A B : Vec3 double) (delta : double) (intr : CameraProperties)
    (lambda_min : double) :
  forall fuel lambda x acc lambdas,
    quantizeRay distort bisect fuel A B delta intr lambda_min lambda x acc
    = Done lambdas ->
    exists appended,
      lambdas = acc ++ appended /\
      (errorInDistanceFromPoint distort
         (snd (loopState (pixelAt distort intr A B) lambda x appended))
         lambda_min A B delta intr <? 0)%float = true.
Proof.
  induction fuel as [|fuel IH]; simpl; intros lambda x acc lambdas Hrun.
  - discriminate.
  - destruct (errorInDistanceFromPoint distort x lambda_min A B delta intr
              <? 0)%float eqn:Hfmax.
    + inversion Hrun; subst. exists []. split.
      * symmetry. apply app_nil_r.
      * exact Hfmax.
    + destruct (bisect _ lambda_min lambda 16%Z) as [r|]; [|discriminate].
      destruct (snd r =? lambda)%float; [discriminate|].
      apply IH in Hrun. destruct Hrun as [appended [Heq Hexit]].
      exists (snd r :: appended). split.
      * rewrite Heq, <- app_assoc. reflexivity.
      * rewrite loopState_snoc. exact Hexit.
Qed.

(** X4.  The quantization of a view stops only where nothing is left to
    find: seen from the pixel of the last position (from the anchor, if
    there is no position) the pixel at [lambda_min] is less than one pixel
    away.  A view yields no position at all, and is logged with zero
    positions, exactly when that already holds at the anchor. *)
Theorem quantized_ray_ends_within_a_pixel_of_its_near_end
    (distort distortPointAtInfinity : Point2d -> double -> Point2d)
    (bisect : (double -> double) -> double -> double -> Z
              -> option (double * double))
    (fuel : nat) (c v : Point3d) (other : Camera) (lambdas : list double) :
  searchView distort distortPointAtInfinity bisect fuel c v other
  = Done (QuantizedRay lambdas) ->
  let AB := rayImage (CameraPose_matrix (extrinsics other)) c v in
  let A := fst AB in
  let B := snd AB in
  let intr := intrinsics other in
  let lambda_min :=
    if (v3_2 A <? 0)%float then 0%float else (- v3_2 A / v3_2 B)%float in
  let residual := fun (x : Point2d) =>
    errorInDistanceFromPoint distort x lambda_min A B 1%float intr in
  exists anchor,
    findAnchor distort distortPointAtInfinity fuel intr A B 1%float
    = Done anchor /\
    (residual
       (snd (loopState (pixelAt distort intr A B) (fst anchor) (snd anchor)
               lambdas)) <? 0)%float = true /\
    (lambdas = [] <-> (residual (snd anchor) <? 0)%float = true).
Proof.
  intros Hrun AB A B intr lambda_min residual.
  destruct (searchView_quantized _ _ _ _ _ _ _ Hrun)
    as [_ [anchor [Hanchor Hloop]]].
  fold AB A B intr lambda_min in Hanchor, Hloop.
  exists anchor. split; [exact Hanchor|].
  destruct (quantizeRay_exit _ _ _ _ _ _ _ _ _ _ _ _ Hloop)
    as [appended [Heq Hexit]].
  simpl in Heq. subst appended. split; [exact Hexit|]. split.
  - intros Hnil. subst lambdas. exact Hexit.
  - intros Hneg. destruct fuel as [|fuel]; [discriminate|].
    simpl in Hloop. unfold residual in Hneg. rewrite Hneg in Hloop.
    inversion Hloop. reflexivity.
Qed.

Lemma quantized_ray_ends_within_a_pixel_of_its_near_end_witness :
  Scenario.search 100 Scenario.c Scenario.v Fixture.beside
  = Done (QuantizedRay [1%float; 0%float]) /\
  (errorInDistanceFromPoint Fixture.distort (Point2 (-2) 0)%float 0%float
     (Col3 2 0 (-1))%float (Col3 0 (-0) (-1))%float 1%float Fixture.plain
   <? 0)%float = true.
Proof.
  split; [exact scenario_beside_run|].
  destruct (quantized_ray_ends_within_a_pixel_of_its_near_end _ _ _ _ _ _ _ _
              scenario_beside_run) as [anchor [Hanchor [Hexit _]]].
  vm_compute in Hanchor. inversion Hanchor; subst anchor.
  vm_compute in Hexit. vm_compute. exact Hexit.
Defined.

(** X5.  Nothing catches the exception of [bisect]: if, after any number of
    positions, the residual at [lambda_min] is not negative and [bisect]
    refuses the bracket it is handed, the search of the view and
    [findExtentOfRay], having come to that view, are aborted. *)
Theorem bisect_exception_aborts_the_search
    (distort distortPointAtInfinity : Point2d -> double -> Point2d)
    (bisect : (double -> double) -> double -> double -> Z
              -> option (double * double))
    (fuel : nat) (projection : Point2d) (pose : CameraPose double)
    (before : list Camera) (results : list ViewResult)
    (other : Camera) (rest : list Camera)
    (anchor : double * Point2d) (appended : list double) :
  let c := center pose in
  let v := rayDirection (rotation pose) projection in
  let AB := rayImage (CameraPose_matrix (extrinsics other)) c v in
  let A := fst AB in
  let B := snd AB in
  let intr := intrinsics other in
  let lambda_min :=
    if (v3_2 A <? 0)%float then 0%float else (- v3_2 A / v3_2 B)%float in
  let state :=
    loopState (pixelAt distort intr A B) (fst anchor) (snd anchor) appended in
  Forall2
    (fun cam r =>
       searchView distort distortPointAtInfinity bisect fuel c v cam = Done r)
    before results ->
  ((0 <? v3_2 A) && (0 <? v3_2 B))%float = false ->
  findAnchor distort distortPointAtInfinity fuel intr A B 1%float
  = Done anchor ->
  each_step (appended_by distort bisect A B 1%float intr lambda_min)
    (pixelAt distort intr A B) (fst anchor) (snd anchor) appended ->
  (List.length appended < fuel)%nat ->
  (errorInDistanceFromPoint distort (snd state) lambda_min A B 1%float intr
   <? 0)%float = false ->
  bisect
    (fun l => errorInDistanceFromPoint distort (snd state) l A B 1%float intr)
    lambda_min (fst state) 16%Z = None ->
  searchView distort distortPointAtInfinity bisect fuel c v other
  = Fatal "boost::math::evaluation_error" /\
  findExtentOfRay distort distortPointAtInfinity bisect fuel projection pose
    (before ++ other :: rest)
  = Fatal "boost::math::evaluation_error".
Proof.
  intros c v AB A B intr lambda_min state Hbefore Hseen Hanchor Hall Hfuel
    Hfmax Hbisect.
  assert (Hview : searchView distort distortPointAtInfinity bisect fuel c v
                    other = Fatal "boost::math::evaluation_error").
  { unfold searchView. fold AB A B intr lambda_min.
    rewrite Hseen, Hanchor. simpl.
    replace fuel
      with (List.length appended + S (fuel - S (List.length appended)))%nat
      by lia.
    rewrite (@quantizeRay_resume distort bisect A B 1%float intr lambda_min
               (S (fuel - S (List.length appended))) appended (fst anchor)
               (snd anchor) [] Hall).
    fold state. simpl. rewrite Hfmax, Hbisect. reflexivity. }
  split; [exact Hview|].
  unfold findExtentOfRay. fold c v.
  rewrite (@searchViews_app distort distortPointAtInfinity bisect fuel c v
             before results _ Hbefore).
  simpl. rewrite Hview. reflexivity.
Qed.

Lemma bisect_exception_aborts_the_search_witness :
  Scenario.search 100 Scenario.c Scenario.v Scenario.perpendicular
  = Fatal "boost::math::evaluation_error" /\
  findExtentOfRay Fixture.distort Fixture.distortPointAtInfinity
    Fixture.bisect 100 (Point2 0 0)%float Fixture.reference
    [Scenario.perpendicular]
  = Fatal "boost::math::evaluation_error".
Proof.
  apply (bisect_exception_aborts_the_search Fixture.distort
           Fixture.distortPointAtInfinity Fixture.bisect 100
           (Point2 0 0)%float Fixture.reference [] [] Scenario.perpendicular
           [] (neg_infinity, Point2 nan nan) []).
  - constructor.
  - vm_compute. reflexivity.
  - vm_compute. reflexivity.
  - exact I.
  - simpl. lia.
  - vm_compute. reflexivity.
  - vm_compute. reflexivity.
Defined.

(** ** The log of a search and lists of cameras *)

Section SearchLog.
Variable distort : Point2d -> double -> Point2d.
Variable distortPointAtInfinity : Point2d -> double -> Point2d.
Variable bisect :
  (double -> double) -> double -> double -> Z -> option (double * double).

(** A view that ends normally was skipped exactly when it is not
    observed, and has left one line in the log exactly when it is. *)
Lemma searchView_logs_when_observed (fuel : nat) (c v : Point3d)
    (other : Camera) (r : ViewResult) :
  searchView distort distortPointAtInfinity bisect fuel c v other = Done r ->
  List.length (logOfView r) = if isObserved c v other then 1%nat else 0%nat.
Proof.
  unfold searchView, isObserved. cbv zeta.
  destruct ((0 <? _) && (0 <? _))%float; simpl; intros Hrun.
  - inversion Hrun. reflexivity.
  - destruct (findAnchor _ _ _ _ _ _ _) as [anchor| |]; simpl in Hrun;
      try discriminate.
    destruct (quantizeRay _ _ _ _ _ _ _ _ _ _ _) as [ls| |]; simpl in Hrun;
      try discriminate.
    inversion Hrun. reflexivity.
Qed.

Lemma searchViews_log_length (fuel : nat) (c v : Point3d) :
  forall (others : list Camera) (log : list LogRecord),
    searchViews distort distortPointAtInfinity bisect fuel c v others
    = Done log ->
    List.length log = List.length (List.filter (isObserved c v) others).
Proof.
  induction others as [|other rest IH]; simpl; intros log Hrun.
  - inversion Hrun. reflexivity.
  - destruct (searchView _ _ _ fuel c v other) as [r| |] eqn:Hview;
      simpl in Hrun; try discriminate.
    destruct (searchViews _ _ _ fuel c v rest) as [log'| |];
      simpl in Hrun; try discriminate.
    inversion Hrun; subst. rewrite length_app, (IH log' eq_refl).
    rewrite (searchView_logs_when_observed _ _ _ _ _ Hview).
    destruct (isObserved c v other); reflexivity.
Qed.

Lemma searchViews_concat (fuel : nat) (c v : Point3d) :
  forall xs ys : list Camera,
    searchViews distort distortPointAtInfinity bisect fuel c v (xs ++ ys)
    = (log1 <- searchViews distort distortPointAtInfinity bisect fuel c v
                 xs ;;
       log2 <- searchViews distort distortPointAtInfinity bisect fuel c v
                 ys ;;
       Done (log1 ++ log2)).
Proof.
  induction xs as [|x xs IH]; intros ys; simpl.
  - symmetry. apply bind_Done_id.
  - rewrite IH.
    destruct (searchView _ _ _ fuel c v x) as [r| |]; simpl; try reflexivity.
    destruct (searchViews _ _ _ fuel c v xs) as [log1| |]; simpl;
      try reflexivity.
    destruct (searchViews _ _ _ fuel c v ys) as [log2| |]; simpl;
      try reflexivity.
    rewrite app_assoc. reflexivity.
Qed.
End SearchLog.

(** X6.  A search that ends normally has logged one line for every camera
    that observes the ray and none for the others: the log is as long as
    the list of the cameras for which [a3 > 0 && b3 > 0] is false, so never
    longer than the list of cameras. *)
Theorem findExtentOfRay_logs_one_line_per_observed_camera
    (distort distortPointAtInfinity : Point2d -> double -> Point2d)
    (bisect : (double -> double) -> double -> double -> Z
              -> option (double * double))
    (fuel : nat) (projection : Point2d) (pose : CameraPose double)
    (others : list Camera) (log : list LogRecord) :
  findExtentOfRay distort distortPointAtInfinity bisect fuel projection pose
    others = Done log ->
  let c := center pose in
  let v := rayDirection (rotation pose) projection in
  List.length log = List.length (List.filter (isObserved c v) others) /\
  (List.length log <= List.length others)%nat.
Proof.
  intros Hrun c v. unfold findExtentOfRay in Hrun.
  pose proof (searchViews_log_length _ _ _ _ _ _ _ _ Hrun) as Hlen.
  fold c v in Hlen. split; [exact Hlen|].
  rewrite Hlen. apply filter_length_le.
Qed.

Lemma findExtentOfRay_logs_one_line_per_observed_camera_witness :
  findExtentOfRay Fixture.distort Fixture.distortPointAtInfinity
    Fixture.bisect 100 (Point2 0 0)%float Fixture.reference
    [Scenario.facing_away; Fixture.beside]
  = Done [QuantizedInto 2] /\
  List.filter (isObserved Scenario.c Scenario.v)
    [Scenario.facing_away; Fixture.beside]
  = [Fixture.beside].
Proof.
  assert (Hrun : findExtentOfRay Fixture.distort
                   Fixture.distortPointAtInfinity Fixture.bisect 100
                   (Point2 0 0)%float Fixture.reference
                   [Scenario.facing_away; Fixture.beside]
                 = Done [QuantizedInto 2]) by (vm_compute; reflexivity).
  split; [exact Hrun|].
  destruct (findExtentOfRay_logs_one_line_per_observed_camera _ _ _ _ _ _ _ _
              Hrun) as [Hlen _].
  vm_compute. reflexivity.
Defined.

(** X7.  The cameras are searched one after the other and independently:
    the search over two lists of cameras put end to end is the search over
    the first followed by the search over the second, with the logs put end
    to end; an abort in the first list is the abort of the whole. *)
Theorem findExtentOfRay_over_concatenated_cameras
    (distort distortPointAtInfinity : Point2d -> double -> Point2d)
    (bisect : (double -> double) -> double -> double -> Z
              -> option (double * double))
    (fuel : nat) (projection : Point2d) (pose : CameraPose double)
    (xs ys : list Camera) :
  findExtentOfRay distort distortPointAtInfinity bisect fuel projection pose
    (xs ++ ys)
  = (log1 <- findExtentOfRay distort distortPointAtInfinity bisect fuel
               projection pose xs ;;
     log2 <- findExtentOfRay distort distortPointAtInfinity bisect fuel
               projection pose ys ;;
     Done (log1 ++ log2)) /\
  (forall msg,
     findExtentOfRay distort distortPointAtInfinity bisect fuel projection
       pose xs = Fatal msg ->
     findExtentOfRay distort distortPointAtInfinity bisect fuel projection
       pose (xs ++ ys) = Fatal msg).
Proof.
  unfold findExtentOfRay.
  pose proof (searchViews_concat distort distortPointAtInfinity bisect fuel
                (center pose) (rayDirection (rotation pose) projection)
                xs ys) as Happ.
  split; [exact Happ|].
  intros msg Habs. rewrite Happ, Habs. reflexivity.
Qed.

(** ** Builds without a search *)

Section QuietBuild.
Variable distort : Point2d -> double -> Point2d.
Variable distortPointAtInfinity : Point2d -> double -> Point2d.
Variable bisect :
  (double -> double) -> double -> double -> Z -> option (double * double).

Lemma searchPoints_without_cameras (fuel : nat) (pose : CameraPose double) :
  forall points : Track Point2d,
    searchPoints distort distortPointAtInfinity bisect fuel pose [] points
    = Done [].
Proof.
  induction points as [|point rest IH]; simpl.
  - reflexivity.
  - unfold findExtentOfRay. simpl. rewrite IH. reflexivity.
Qed.

Lemma findMultiviewTrack_quiet (fuel : nat) (track : Track Point2d)
    (pose : CameraPose double) (other_views : list OtherView) :
  other_views = [] \/ track = [] ->
  findMultiviewTrack distort distortPointAtInfinity bisect fuel track pose
    other_views
  = Done (MultiviewTrack_new Point2d (List.length other_views + 1), []).
Proof.
  unfold findMultiviewTrack. intros [Hviews|Htrack].
  - subst other_views. simpl. rewrite searchPoints_without_cameras.
    reflexivity.
  - subst track. reflexivity.
Qed.

Lemma buildTracks_quiet (fuel : nat) (pose : CameraPose double)
    (other_views : list OtherView) :
  forall (tracks : TrackList Point2d)
         (acc : MultiviewTrackList Point2d) (log0 : list LogRecord),
    other_views = [] \/ Forall (fun track => track = []) tracks ->
    buildTracks distort distortPointAtInfinity bisect fuel pose other_views
      tracks (acc, log0)
    = Done ({| num_views := num_views acc;
               multiview_tracks :=
                 multiview_tracks acc
                 ++ List.map
                      (fun _ => MultiviewTrack_new Point2d
                                  (List.length other_views + 1))
                      tracks |},
            log0).
Proof.
  induction tracks as [|track rest IH]; simpl; intros acc log0 Hquiet.
  - rewrite app_nil_r. destruct acc. reflexivity.
  - rewrite findMultiviewTrack_quiet.
    + simpl. rewrite IH.
      * simpl. rewrite app_nil_r, <- app_assoc. reflexivity.
      * destruct Hquiet as [Hviews|Hall]; [left; exact Hviews|right].
        inversion Hall; assumption.
    + destruct Hquiet as [Hviews|Hall]; [left; exact Hviews|right].
      inversion Hall; assumption.
Qed.
End QuietBuild.

(** X8.  When there is no other view, or when no track has a point, the
    build runs no search: whatever the fuel, the cameras and the points, it
    ends normally with an empty log and with one multiview track per input
    track, each with its slots empty. *)
Theorem build_without_views_or_points_runs_no_search
    (distort distortPointAtInfinity : Point2d -> double -> Point2d)
    (bisect : (double -> double) -> double -> double -> Z
              -> option (double * double))
    (fuel : nat) (tracks : TrackList Point2d) (pose : CameraPose double)
    (other_views : list OtherView) :
  other_views = [] \/ Forall (fun track => track = []) tracks ->
  findMultiviewTracks distort distortPointAtInfinity bisect fuel tracks pose
    other_views
  = Done ({| num_views := List.length other_views + 1;
             multiview_tracks :=
               List.map
                 (fun _ => MultiviewTrack_new Point2d
                             (List.length other_views + 1))
                 tracks |},
          []).
Proof.
  intros Hquiet. unfold findMultiviewTracks.
  rewrite buildTracks_quiet by exact Hquiet. reflexivity.
Qed.

Lemma build_without_views_or_points_runs_no_search_witness :
  Scenario.build 0 [Scenario.center_track; []] Fixture.reference []
  = Done ({| num_views := 1; multiview_tracks := [[[]]; [[]]] |}, []) /\
  Scenario.build 0 [[]; []] Fixture.reference Scenario.one_view
  = Done ({| num_views := 2; multiview_tracks := [[[]; []]; [[]; []]] |}, []).
Proof.
  split.
  - apply (build_without_views_or_points_runs_no_search Fixture.distort
             Fixture.distortPointAtInfinity Fixture.bisect 0
             [Scenario.center_track; []] Fixture.reference []).
    left. reflexivity.
  - apply (build_without_views_or_points_runs_no_search Fixture.distort
             Fixture.distortPointAtInfinity Fixture.bisect 0
             [[]; []] Fixture.reference Scenario.one_view).
    right. repeat constructor.
Defined.

(** ** Frames the calibrator keeps *)

(** X9.  The calibrator never adds a frame: its result is never longer
    than the track, and it has all the frames of the track exactly when
    [isUndistortable] holds of the calibrated point of every frame. *)
Theorem calibrator_keeps_every_frame_iff_all_undistortable
    (isUndistortable : Point2d -> double -> bool)
    (undistort : Point2d -> double -> Point2d)
    (inv : Mat33 double -> Mat33 double)
    (track : Track Point2d) (intr : CameraProperties) :
  is_track track ->
  let result :=
    calibrateAndUndistortTrack isUndistortable undistort inv track intr in
  (List.length result <= List.length track)%nat /\
  (frames result = frames track <->
   forall i p, In (i, p) track ->
     isUndistortable (snd (calibrateIndexedPoint (inv (matrix intr)) (i, p)))
       (distort_w intr) = true).
Proof.
  intros Htrack result.
  destruct (calibrateAndUndistortTrack_passes isUndistortable undistort inv
              intr Htrack) as [_ [_ Hr]].
  fold result in Hr.
  set (K_inv := inv (matrix intr)) in *. set (w := distort_w intr) in *.
  set (keep := fun p : Z * Point2d => isUndistortable (snd p) w) in *.
  set (calibrated := List.map (calibrateIndexedPoint K_inv) track) in *.
  assert (Hlen : List.length calibrated = List.length track)
    by apply length_map.
  split.
  - rewrite Hr, length_map, <- Hlen. apply filter_length_le.
  - rewrite Hr, frames_map_keys by reflexivity. split.
    + intros Hframes i p Hin.
      assert (Hall : forallb keep calibrated = true).
      { apply filter_length_forallb.
        rewrite <- (length_map fst (List.filter keep calibrated)).
        fold (frames (List.filter keep calibrated)). rewrite Hframes.
        unfold frames. rewrite length_map. symmetry. exact Hlen. }
      rewrite forallb_forall in Hall.
      apply (Hall (calibrateIndexedPoint K_inv (i, p))).
      apply in_map. exact Hin.
    + intros Hall. rewrite forallb_filter_id.
      * apply frames_map_keys. reflexivity.
      * apply forallb_forall. intros q Hq.
        apply in_map_iff in Hq. destruct Hq as [[i p] [Heq Hin]].
        subst q. apply (Hall i p Hin).
Qed.

Lemma calibrator_keeps_every_frame_iff_all_undistortable_witness :
  is_track Scenario.two_frames /\
  (List.length (Scenario.calibrator Scenario.two_frames Scenario.wide)
   <= List.length Scenario.two_frames)%nat /\
  frames (Scenario.calibrator Scenario.two_frames Fixture.plain)
  = frames Scenario.two_frames.
Proof.
  assert (Ht : is_track Scenario.two_frames).
  { unfold is_track. simpl. repeat constructor. }
  split; [exact Ht|]. split.
  - apply (calibrator_keeps_every_frame_iff_all_undistortable
             Fixture.isUndistortable Fixture.undistort Fixture.inv
             Scenario.two_frames Scenario.wide Ht).
  - apply (calibrator_keeps_every_frame_iff_all_undistortable
             Fixture.isUndistortable Fixture.undistort Fixture.inv
             Scenario.two_frames Fixture.plain Ht).
    intros i p [Hin|[Hin|[]]]; inversion Hin; subst; vm_compute; reflexivity.
Defined.

(** * The command-line tool *)

(** ** The views *)

Lemma viewNumbers_cons (view : Z) (n : nat) :
  viewNumbers view (S n) = view :: viewNumbers (view + 1) n.
Proof.
  unfold viewNumbers. simpl. f_equal.
  - lia.
  - rewrite <- seq_shift, map_map. apply map_ext. intros k. lia.
Qed.

Lemma viewNumbers_without (main_view : Z) :
  forall (n : nat) (view : Z),
    let rest :=
      List.filter (fun i => negb (i =? main_view)%Z) (viewNumbers view n) in
    ((view <= main_view < view + Z.of_nat n)%Z ->
     (List.length rest + 1 = n)%nat) /\
    ((main_view < view)%Z -> List.length rest = n).
Proof.
  induction n as [|n IH]; intros view rest.
  - split; [lia|reflexivity].
  - unfold rest. rewrite viewNumbers_cons, Nat2Z.inj_succ. simpl.
    destruct (IH (view + 1)%Z) as [Hin Hout].
    destruct (view =? main_view)%Z eqn:Hview; simpl.
    + apply Z.eqb_eq in Hview. split; [|lia].
      intros _. specialize (Hout ltac:(lia)). lia.
    + apply Z.eqb_neq in Hview. split.
      * intros Hrange. specialize (Hin ltac:(lia)). lia.
      * intros Hlt. specialize (Hout ltac:(lia)). lia.
Qed.

Section Views.
Variable format : string -> string -> string.
Variable loadCameraProperties : string -> option CameraProperties.
Variable loadCameraPose : string -> option (CameraPose double).
Variable main_view : Z.
Variable intrinsics_format extrinsics_format : string.

Lemma loadViews_done :
  forall (view_names : list string) (view : Z) (cam0 : Camera)
         (others0 : list OtherView) (cam : Camera)
         (others : list OtherView),
    loadViews format loadCameraProperties loadCameraPose main_view
      intrinsics_format extrinsics_format view view_names cam0 others0
    = Done (cam, others) ->
    List.map index others
    = List.map index others0
      ++ List.filter (fun i => negb (i =? main_view)%Z)
           (viewNumbers view (List.length view_names)) /\
    (forall w, In w others ->
       In w others0 \/
       exists name,
         nth_error view_names (Z.to_nat (index w - view)) = Some name /\
         (view <= index w)%Z /\
         loadsAs format loadCameraProperties loadCameraPose
           intrinsics_format extrinsics_format name
           (camera w)) /\
    ((view <= main_view < view + Z.of_nat (List.length view_names))%Z ->
     exists name,
       nth_error view_names (Z.to_nat (main_view - view)) = Some name /\
       loadsAs format loadCameraProperties loadCameraPose
           intrinsics_format extrinsics_format name cam) /\
    (~ (view <= main_view < view + Z.of_nat (List.length view_names))%Z ->
     cam = cam0) /\
    (forall name, In name view_names ->
     exists c,
       loadsAs format loadCameraProperties loadCameraPose
           intrinsics_format extrinsics_format name c).
Proof.
  induction view_names as [|name rest IH];
    intros view cam0 others0 cam others Hrun.
  - simpl in Hrun. inversion Hrun; subst. simpl.
    rewrite app_nil_r. split; [reflexivity|].
    split; [intros w Hw; left; exact Hw|].
    split; [intros Hrange; lia|].
    split; [reflexivity|]. intros n [].
  - simpl in Hrun.
    destruct (loadCameraProperties (makeViewFilename format intrinsics_format
                name)) as [intr|] eqn:Hintr; simpl in Hrun;
      [|discriminate].
    destruct (loadCameraPose (makeViewFilename format extrinsics_format name))
      as [extr|] eqn:Hextr; simpl in Hrun; [|discriminate].
    assert (Hname : loadsAs format loadCameraProperties loadCameraPose
           intrinsics_format extrinsics_format name
                    {| intrinsics := intr; extrinsics := extr |}).
    { split; assumption. }
    change (List.length (name :: rest)) with (S (List.length rest)).
    rewrite viewNumbers_cons, Nat2Z.inj_succ. cbn [List.filter].
    destruct (view =? main_view)%Z eqn:Hview; cbn [negb].
    + apply Z.eqb_eq in Hview.
      destruct (IH _ _ _ _ _ Hrun) as [Hidx [Hoth [_ [Hcam Hall]]]].
      split; [exact Hidx|]. split; [|split; [|split]].
      * intros w Hw. destruct (Hoth w Hw) as [Hold|[n [Hn [Hle Hl]]]].
        -- left. exact Hold.
        -- right. exists n. split; [|split; [lia|exact Hl]].
           replace (Z.to_nat (index w - view))
             with (S (Z.to_nat (index w - (view + 1)))) by lia.
           exact Hn.
      * intros _. exists name. split.
        -- replace (main_view - view)%Z with 0%Z by lia. reflexivity.
        -- rewrite Hcam by lia. exact Hname.
      * intros Hout. lia.
      * intros n [Hn|Hn]; [subst n; eexists; exact Hname|apply Hall, Hn].
    + apply Z.eqb_neq in Hview.
      destruct (IH _ _ _ _ _ Hrun) as [Hidx [Hoth [Hin [Hcam Hall]]]].
      split; [|split; [|split; [|split]]].
      * rewrite Hidx, map_app, <- app_assoc. reflexivity.
      * intros w Hw. destruct (Hoth w Hw) as [Hold|[n [Hn [Hle Hl]]]].
        -- apply in_app_or in Hold. destruct Hold as [Hold|[Hnew|[]]].
           ++ left. exact Hold.
           ++ right. subst w. simpl. exists name.
              split; [|split; [lia|exact Hname]].
              replace (view - view)%Z with 0%Z by lia. reflexivity.
        -- right. exists n. split; [|split; [lia|exact Hl]].
           replace (Z.to_nat (index w - view))
             with (S (Z.to_nat (index w - (view + 1)))) by lia.
           exact Hn.
      * intros Hrange. destruct Hin as [n [Hn Hl]]; [lia|].
        exists n. split; [|exact Hl].
        replace (Z.to_nat (main_view - view))
          with (S (Z.to_nat (main_view - (view + 1)))) by lia.
        exact Hn.
      * intros Hout. apply Hcam. lia.
      * intros n [Hn|Hn]; [subst n; eexists; exact Hname|apply Hall, Hn].
Qed.
End Views.

(** X10.  The loop over the views ends normally only if both files of
    every view load, the main view's and the others' alike.  With the main
    view in range it then leaves the camera of the main view as the
    reference camera, never the default-constructed one, and every other
    view, numbered as in the list of names and in that order: one view less
    than there are names. *)
Theorem loadViews_splits_the_views
    (format : string -> string -> string)
    (loadCameraProperties : string -> option CameraProperties)
    (loadCameraPose : string -> option (CameraPose double))
    (main_view : Z) (intrinsics_format extrinsics_format : string)
    (view_names : list string) (default_camera reference : Camera)
    (other_views : list OtherView) :
  let loads := loadsAs format loadCameraProperties loadCameraPose
                 intrinsics_format extrinsics_format in
  loadViews format loadCameraProperties loadCameraPose main_view
    intrinsics_format extrinsics_format 0 view_names default_camera []
  = Done (reference, other_views) ->
  (0 <= main_view < Z.of_nat (List.length view_names))%Z ->
  List.map index other_views
  = List.filter (fun i => negb (i =? main_view)%Z)
      (viewNumbers 0 (List.length view_names)) /\
  (List.length other_views + 1 = List.length view_names)%nat /\
  (exists name,
     nth_error view_names (Z.to_nat main_view) = Some name /\
     loads name reference) /\
  (forall w, In w other_views ->
     exists name,
       nth_error view_names (Z.to_nat (index w)) = Some name /\
       loads name (camera w)) /\
  (forall name, In name view_names -> exists c, loads name c).
Proof.
  intros loads Hrun Hrange.
  destruct (loadViews_done _ _ _ _ _ _ _ _ _ _ _ _ Hrun)
    as [Hidx [Hoth [Hin [_ Hall]]]].
  simpl in Hidx. split; [exact Hidx|]. split; [|split; [|split]].
  - rewrite <- (length_map index), Hidx.
    apply (viewNumbers_without main_view (List.length view_names) 0%Z).
    lia.
  - destruct Hin as [name [Hname Hl]]; [lia|].
    exists name. rewrite Z.sub_0_r in Hname. auto.
  - intros w Hw. destruct (Hoth w Hw) as [[]|[name [Hname [_ Hl]]]].
    exists name. rewrite Z.sub_0_r in Hname. auto.
  - exact Hall.
Qed.

Lemma loadViews_splits_the_views_witness :
  loadViews Tool.format Tool.loadCameraProperties Tool.loadCameraPose 0
    "int/" "ext/" 0 ["ref"; "beside"]%string Tool.default_camera []
  = Done ({| intrinsics := Fixture.plain; extrinsics := Fixture.reference |},
          Scenario.one_view) /\
  (0 <= 0 < Z.of_nat (List.length ["ref"; "beside"]%string))%Z /\
  List.map index Scenario.one_view = [1%Z].
Proof.
  assert (Hrun : loadViews Tool.format Tool.loadCameraProperties
                   Tool.loadCameraPose 0 "int/" "ext/" 0
                   ["ref"; "beside"]%string Tool.default_camera []
                 = Done ({| intrinsics := Fixture.plain;
                            extrinsics := Fixture.reference |},
                         Scenario.one_view))
    by (vm_compute; reflexivity).
  assert (Hrange : (0 <= 0 < Z.of_nat (List.length ["ref"; "beside"]%string))%Z)
    by (simpl; lia).
  split; [exact Hrun|]. split; [exact Hrange|].
  destruct (loadViews_splits_the_views _ _ _ _ _ _ _ _ _ _ Hrun Hrange)
    as [Hidx _].
  rewrite Hidx. reflexivity.
Defined.

(** ** A whole run *)

Section WholeRun.
Variable distort : Point2d -> double -> Point2d.
Variable distortPointAtInfinity : Point2d -> double -> Point2d.
Variable isUndistortable : Point2d -> double -> bool.
Variable undistort : Point2d -> double -> Point2d.
Variable inv : Mat33 double -> Mat33 double.
Variable bisect :
  (double -> double) -> double -> double -> Z -> option (double * double).
Variable lexical_cast_int : string -> option Z.
Variable format : string -> string -> string.
Variable loadTrackList : string -> option (TrackList Point2d).
Variable readLines : string -> option (list string).
Variable loadCameraProperties : string -> option CameraProperties.
Variable loadCameraPose : string -> option (CameraPose double).
Variable saveMultiviewTrackList :
  string -> MultiviewTrackList Point2d -> bool.
Variable default_camera : Camera.

(** What a run with nine arguments that ends normally went through. *)
Lemma main_done (fuel : nat) (argv : list string) (e : Exit) :
  List.length argv = 9%nat ->
  main distort distortPointAtInfinity isUndistortable undistort inv bisect
    lexical_cast_int format loadTrackList readLines loadCameraProperties
    loadCameraPose saveMultiviewTrackList default_camera fuel argv
  = Done e ->
  exists main_view num_frames tracks names reference other_views built,
    lexical_cast_int (nth 1 argv ""%string) = Some main_view /\
    lexical_cast_int (nth 7 argv ""%string) = Some num_frames /\
    loadTrackList (nth 2 argv ""%string) = Some tracks /\
    readLines (nth 6 argv ""%string) = Some names /\
    (0 <= main_view < Z.of_nat (List.length names))%Z /\
    loadViews format loadCameraProperties loadCameraPose main_view
      (nth 5 argv ""%string) (nth 4 argv ""%string) 0 names default_camera []
    = Done (reference, other_views) /\
    findMultiviewTracks distort distortPointAtInfinity bisect fuel
      (List.map
         (fun track =>
            calibrateAndUndistortTrack isUndistortable undistort inv track
              (intrinsics reference))
         tracks)
      (extrinsics reference) other_views = Done built /\
    saveMultiviewTrackList (nth 8 argv ""%string) (fst built) = true /\
    e = {| exit_status := 0;
           saved := Some (nth 8 argv ""%string, fst built);
           logged :=
             LoadedTracks (List.length tracks)
             :: MatchingTo (List.length names)
             :: List.map FromSearch (snd built) |}.
Proof.
  intros Hargs. unfold main. rewrite Hargs. simpl.
  destruct (lexical_cast_int (nth 1 argv ""%string)) as [main_view|];
    simpl; [|discriminate].
  destruct (lexical_cast_int (nth 7 argv ""%string)) as [num_frames|];
    simpl; [|discriminate].
  destruct (loadTrackList (nth 2 argv ""%string)) as [tracks|];
    simpl; [|discriminate].
  destruct (readLines (nth 6 argv ""%string)) as [names|];
    simpl; [|discriminate].
  destruct (0 <=? main_view)%Z eqn:Hlow; simpl; [|discriminate].
  destruct (main_view <? Z.of_nat (List.length names))%Z eqn:Hhigh; simpl;
    [|discriminate].
  destruct (loadViews _ _ _ main_view _ _ 0%Z names default_camera [])
    as [[reference other_views]| |] eqn:Hviews; simpl; try discriminate.
  destruct (findMultiviewTracks _ _ _ fuel _ _ other_views)
    as [built| |] eqn:Hbuilt; simpl; try discriminate.
  destruct (saveMultiviewTrackList (nth 8 argv ""%string) (fst built))
    eqn:Hsave; simpl; [|discriminate].
  intros Hrun. inversion Hrun; subst e.
  exists main_view, num_frames, tracks, names, reference, other_views, built.
  apply Z.leb_le in Hlow. apply Z.ltb_lt in Hhigh.
  repeat split; try reflexivity; try assumption; lia.
Qed.
End WholeRun.

(** X11.  A run of [main] that is not aborted either was given a wrong
    number of arguments, and then exits with status 1 having saved nothing,
    or exits with status 0 having saved, under the name of its last
    argument, a list that the writer accepted: it has one multiview track
    per track of the input file, each with as many slots as the views file
    has names, and the index of the main view lies within those names. *)
Theorem main_saves_one_multiview_track_per_track
    (distort distortPointAtInfinity : Point2d -> double -> Point2d)
    (isUndistortable : Point2d -> double -> bool)
    (undistort : Point2d -> double -> Point2d)
    (inv : Mat33 double -> Mat33 double)
    (bisect : (double -> double) -> double -> double -> Z
              -> option (double * double))
    (lexical_cast_int : string -> option Z)
    (format : string -> string -> string)
    (loadTrackList : string -> option (TrackList Point2d))
    (readLines : string -> option (list string))
    (loadCameraProperties : string -> option CameraProperties)
    (loadCameraPose : string -> option (CameraPose double))
    (saveMultiviewTrackList : string -> MultiviewTrackList Point2d -> bool)
    (default_camera : Camera)
    (fuel : nat) (argv : list string) (e : Exit) :
  main distort distortPointAtInfinity isUndistortable undistort inv bisect
    lexical_cast_int format loadTrackList readLines loadCameraProperties
    loadCameraPose saveMultiviewTrackList default_camera fuel argv
  = Done e ->
  (List.length argv <> 9%nat /\
   e = {| exit_status := 1; saved := None; logged := [] |}) \/
  (List.length argv = 9%nat /\ exit_status e = 0%Z /\
   exists main_view tracks names mts,
     lexical_cast_int (nth 1 argv ""%string) = Some main_view /\
     loadTrackList (nth 2 argv ""%string) = Some tracks /\
     readLines (nth 6 argv ""%string) = Some names /\
     (0 <= main_view < Z.of_nat (List.length names))%Z /\
     saved e = Some (nth 8 argv ""%string, mts) /\
     saveMultiviewTrackList (nth 8 argv ""%string) mts = true /\
     num_views mts = List.length names /\
     multiview_tracks mts
     = List.map
         (fun _ => MultiviewTrack_new Point2d (List.length names)) tracks).
Proof.
  intros Hrun.
  destruct (Nat.eq_dec (List.length argv) 9) as [Hargs|Hargs].
  - right. split; [exact Hargs|].
    destruct (main_done _ _ _ _ _ _ _ _ _ _ _ _ _ _ _ _ _ Hargs Hrun)
      as [main_view [num_frames [tracks [names [reference [other_views
            [[mts log] [Hmv [_ [Htracks [Hnames [Hrange [Hviews [Hbuilt
                [Hsave He]]]]]]]]]]]]]]].
    subst e. split; [reflexivity|].
    exists main_view, tracks, names, mts.
    assert (Hcount : (List.length other_views + 1 = List.length names)%nat).
    { destruct (loadViews_done _ _ _ _ _ _ _ _ _ _ _ _ Hviews)
        as [Hidx _].
      simpl in Hidx. rewrite <- (length_map index), Hidx.
      apply (viewNumbers_without main_view (List.length names) 0%Z). lia. }
    unfold findMultiviewTracks in Hbuilt.
    apply buildTracks_done in Hbuilt.
    destruct Hbuilt as [Hn [Hmts _]]. simpl in Hn, Hmts, Hsave.
    rewrite Hcount in Hn, Hmts. rewrite map_map in Hmts.
    repeat split; try assumption; lia.
  - left. split; [exact Hargs|].
    unfold main in Hrun. apply Nat.eqb_neq in Hargs.
    rewrite Hargs in Hrun. simpl in Hrun. inversion Hrun. reflexivity.
Qed.

Lemma main_saves_one_multiview_track_per_track_witness :
  Tool.run 100 Tool.argv
  = Done {| exit_status := 0;
            saved := Some ("out"%string,
                           {| num_views := 2;
                              multiview_tracks := [[[]; []]] |});
            logged := [LoadedTracks 1; MatchingTo 2;
                       FromSearch (QuantizedInto 2)] |} /\
  (List.length Tool.argv = 9%nat \/ List.length Tool.argv <> 9%nat).
Proof.
  assert (Hrun : Tool.run 100 Tool.argv
                 = Done {| exit_status := 0;
                           saved := Some ("out"%string,
                                          {| num_views := 2;
                                             multiview_tracks :=
                                               [[[]; []]] |});
                           logged := [LoadedTracks 1; MatchingTo 2;
                                      FromSearch (QuantizedInto 2)] |})
    by (vm_compute; reflexivity).
  split; [exact Hrun|].
  destruct (main_saves_one_multiview_track_per_track _ _ _ _ _ _ _ _ _ _ _ _
              _ _ _ _ _ Hrun) as [[Hargs _]|[Hargs _]]; [right|left];
    exact Hargs.
Defined.

(** X12.  Two of the eight arguments of the tool are read and not used:
    the image format may be any text, and the number of frames any text
    that is an integer, without any change to the run; a number of frames
    that is no integer still aborts the run, with the exception of
    [boost::lexical_cast], whatever the other arguments and the fuel are. *)
Theorem main_ignores_image_format_and_num_frames
    (distort distortPointAtInfinity : Point2d -> double -> Point2d)
    (isUndistortable : Point2d -> double -> bool)
    (undistort : Point2d -> double -> Point2d)
    (inv : Mat33 double -> Mat33 double)
    (bisect : (double -> double) -> double -> double -> Z
              -> option (double * double))
    (lexical_cast_int : string -> option Z)
    (format : string -> string -> string)
    (loadTrackList : string -> option (TrackList Point2d))
    (readLines : string -> option (list string))
    (loadCameraProperties : string -> option CameraProperties)
    (loadCameraPose : string -> option (CameraPose double))
    (saveMultiviewTrackList : string -> MultiviewTrackList Point2d -> bool)
    (default_camera : Camera)
    (fuel : nat) (argv : list string) (image_format num_frames : string) :
  let run :=
    main distort distortPointAtInfinity isUndistortable undistort inv bisect
      lexical_cast_int format loadTrackList readLines loadCameraProperties
      loadCameraPose saveMultiviewTrackList default_camera fuel in
  List.length argv = 9%nat ->
  (lexical_cast_int (nth 7 argv ""%string) <> None ->
   lexical_cast_int num_frames <> None ->
   run (replaceArg 3 image_format (replaceArg 7 num_frames argv))
   = run argv) /\
  (lexical_cast_int (nth 7 argv ""%string) = None ->
   run argv = Fatal "boost::bad_lexical_cast").
Proof.
  intros run Hargs.
  destruct argv as [|a0 [|a1 [|a2 [|a3 [|a4 [|a5 [|a6 [|a7 [|a8 [|a9 rest]
    ]]]]]]]]]; try discriminate Hargs.
  unfold run, main, replaceArg. simpl. split.
  - intros Hold Hnew.
    destruct (lexical_cast_int a1) as [main_view|]; simpl; [|reflexivity].
    destruct (lexical_cast_int a7) as [n|]; [|contradiction].
    destruct (lexical_cast_int num_frames) as [n'|]; [|contradiction].
    reflexivity.
  - intros Hbad. rewrite Hbad.
    destruct (lexical_cast_int a1) as [main_view|]; simpl; reflexivity.
Qed.

Lemma main_ignores_image_format_and_num_frames_witness :
  List.length Tool.argv = 9%nat /\
  Tool.run 100
    (replaceArg 3 "elsewhere/%s.png" (replaceArg 7 "20" Tool.argv))
  = Tool.run 100 Tool.argv /\
  Tool.run 100 (replaceArg 7 "many" Tool.argv)
  = Fatal "boost::bad_lexical_cast".
Proof.
  assert (Hargs : List.length Tool.argv = 9%nat) by reflexivity.
  split; [exact Hargs|]. split.
  - destruct (main_ignores_image_format_and_num_frames Fixture.distort
                Fixture.distortPointAtInfinity Fixture.isUndistortable
                Fixture.undistort Fixture.inv Fixture.bisect
                Tool.lexical_cast_int Tool.format Tool.loadTrackList
                Tool.readLines Tool.loadCameraProperties Tool.loadCameraPose
                Tool.saveMultiviewTrackList Tool.default_camera 100 Tool.argv
                "elsewhere/%s.png" "20" Hargs) as [Hsame _].
    apply Hsame; vm_compute; discriminate.
  - assert (Hargs' : List.length (replaceArg 7 "many" Tool.argv) = 9%nat)
      by reflexivity.
    destruct (main_ignores_image_format_and_num_frames Fixture.distort
                Fixture.distortPointAtInfinity Fixture.isUndistortable
                Fixture.undistort Fixture.inv Fixture.bisect
                Tool.lexical_cast_int Tool.format Tool.loadTrackList
                Tool.readLines Tool.loadCameraProperties Tool.loadCameraPose
                Tool.saveMultiviewTrackList Tool.default_camera 100
                (replaceArg 7 "many" Tool.argv) "img/" "many" Hargs')
      as [_ Hbad].
    apply Hbad. vm_compute. reflexivity.
Defined.

(** * Mutual matches *)

(** ** The map of the reverse matches *)

Lemma frames_map_insert {T : Type} (kv : Z * T) :
  forall (m : Track T) (k : Z),
    In k (frames (map_insert kv m)) -> k = fst kv \/ In k (frames m).
Proof.
  induction m as [|kv' m IH]; simpl; intros k Hin.
  - destruct Hin as [Hin|[]]. left. symmetry. exact Hin.
  - destruct (fst kv ?= fst kv')%Z; simpl in Hin.
    + right. exact Hin.
    + destruct Hin as [Hin|Hin]; [left; symmetry; exact Hin|right; exact Hin].
    + destruct Hin as [Hin|Hin]; [right; left; exact Hin|].
      destruct (IH k Hin) as [Hk|Hk]; [left; exact Hk|right; right; exact Hk].
Qed.

(** Insertion keeps the invariant of a [std::map]. *)
Lemma map_insert_is_track {T : Type} (kv : Z * T) :
  forall m : Track T, is_track m -> is_track (map_insert kv m).
Proof.
  unfold is_track.
  induction m as [|kv' m IH]; simpl; intros Hs.
  - repeat constructor.
  - inversion Hs as [|? ? Hs' Hall]; subst.
    destruct (fst kv ?= fst kv')%Z eqn:Hcmp; simpl.
    + exact Hs.
    + assert (Hlt : (fst kv < fst kv')%Z)
        by (apply Z.compare_lt_iff; exact Hcmp).
      constructor; [exact Hs|].
      constructor; [exact Hlt|].
      rewrite Forall_forall in *. intros k Hk.
      specialize (Hall k Hk). lia.
    + assert (Hgt : (fst kv' < fst kv)%Z)
        by (apply Z.compare_gt_iff; exact Hcmp).
      constructor; [apply IH, Hs'|].
      rewrite Forall_forall in *. intros k Hk.
      destruct (frames_map_insert kv m k Hk) as [Heq|Hin].
      * subst k. exact Hgt.
      * apply Hall, Hin.
Qed.

Lemma map_find_above {T : Type} (key : Z) :
  forall m : Track T,
    Forall (fun k => (key < k)%Z) (frames m) -> map_find key m = None.
Proof.
  induction m as [|kv m IH]; simpl; intros Hall.
  - reflexivity.
  - inversion Hall as [|? ? Hlt Hall']; subst.
    destruct (fst kv =? key)%Z eqn:Heq.
    + apply Z.eqb_eq in Heq. lia.
    + apply IH, Hall'.
Qed.

(** Looking up after an insertion: an entry that was there stays, and the
    inserted one is found only if its key was free. *)
Lemma map_find_insert {T : Type} (kv : Z * T) (key : Z) :
  forall m : Track T,
    is_track m ->
    map_find key (map_insert kv m)
    = match map_find key m with
      | Some v => Some v
      | None => if (fst kv =? key)%Z then Some (snd kv) else None
      end.
Proof.
  unfold is_track.
  induction m as [|kv' m IH]; simpl; intros Hs.
  - reflexivity.
  - inversion Hs as [|? ? Hs' Hall]; subst.
    destruct (fst kv ?= fst kv')%Z eqn:Hcmp; simpl.
    + apply Z.compare_eq_iff in Hcmp.
      destruct (fst kv' =? key)%Z eqn:Hkey; [reflexivity|].
      rewrite Hcmp, Hkey. destruct (map_find key m); reflexivity.
    + assert (Hlt : (fst kv < fst kv')%Z)
        by (apply Z.compare_lt_iff; exact Hcmp).
      destruct (fst kv =? key)%Z eqn:Hkey;
        [|destruct (fst kv' =? key)%Z;
          [reflexivity|destruct (map_find key m); reflexivity]].
      apply Z.eqb_eq in Hkey.
      destruct (fst kv' =? key)%Z eqn:Hkey'; [apply Z.eqb_eq in Hkey'; lia|].
      rewrite map_find_above; [reflexivity|].
      rewrite Forall_forall in *. intros k Hk. specialize (Hall k Hk). lia.
    + destruct (fst kv' =? key)%Z; [reflexivity|]. apply IH, Hs'.
Qed.

Lemma map_find_fold_insert (key : Z) :
  forall (matches : MatchList) (acc : Track Z),
    is_track acc ->
    map_find key (transform_into (fun m : Z * Z => m) matches acc)
    = match map_find key acc with
      | Some v => Some v
      | None => option_map snd (firstWithKey key matches)
      end.
Proof.
  unfold transform_into, firstWithKey.
  induction matches as [|m rest IH]; simpl; intros acc Hacc.
  - destruct (map_find key acc); reflexivity.
  - rewrite IH by apply map_insert_is_track, Hacc.
    rewrite map_find_insert by exact Hacc.
    destruct (map_find key acc); [reflexivity|].
    destruct (fst m =? key)%Z; reflexivity.
Qed.

(** A forward match is consistent exactly when the first reverse match
    from its second index leads back to its first index. *)
Lemma IsInconsistent_call_first (reverse_matches : MatchList)
    (forward : Match) :
  IsInconsistent_call (IsInconsistent_new reverse_matches) forward = false
  <-> firstWithKey (snd forward) reverse_matches
      = Some (snd forward, fst forward).
Proof.
  unfold IsInconsistent_call, IsInconsistent_new. simpl.
  rewrite map_find_fold_insert by constructor. simpl.
  destruct (firstWithKey (snd forward) reverse_matches) as [[t q]|]
    eqn:Hfirst; simpl.
  - unfold firstWithKey in Hfirst.
    apply find_some in Hfirst. destruct Hfirst as [_ Hkey].
    simpl in Hkey. apply Z.eqb_eq in Hkey. subst t.
    destruct (q =? fst forward)%Z eqn:Hq; simpl.
    + apply Z.eqb_eq in Hq. subst q. split; reflexivity.
    + apply Z.eqb_neq in Hq. split; [discriminate|].
      intros Heq. inversion Heq. contradiction.
  - split; discriminate.
Qed.

(** X13.  A forward match is consistent exactly when the first reverse
    match that starts from its second index leads back to its first index.
    A later reverse match from the same index is never looked at, because
    the map keeps the entry it already has. *)
Theorem IsInconsistent_looks_at_the_first_reverse_match
    (reverse_matches : MatchList) (forward : Match) :
  map_find (snd forward) (lookup (IsInconsistent_new reverse_matches))
  = option_map snd (firstWithKey (snd forward) reverse_matches) /\
  (IsInconsistent_call (IsInconsistent_new reverse_matches) forward = false
   <-> firstWithKey (snd forward) reverse_matches
       = Some (snd forward, fst forward)).
Proof.
  assert (Hfind : map_find (snd forward)
                    (lookup (IsInconsistent_new reverse_matches))
                  = option_map snd
                      (firstWithKey (snd forward) reverse_matches)).
  { unfold IsInconsistent_new. simpl.
    rewrite map_find_fold_insert by constructor. reflexivity. }
  split; [exact Hfind|].
  apply IsInconsistent_call_first.
Qed.

(** ** The selection of the matches *)

Lemma isNotDistinctive_defined (matches : MatchResultList) (ratio : double) :
  isNotDistinctive matches ratio <> None <-> (2 <= List.length matches)%nat.
Proof.
  destruct matches as [|first [|second rest]]; simpl.
  - split; [intros H; contradiction|lia].
  - split; [intros H; contradiction|lia].
  - split; [intros _; lia|discriminate].
Qed.

Lemma remove_copy_if_defined_some {A : Type} (pred : A -> option bool) :
  forall l kept : list A,
    remove_copy_if_defined pred l = Some kept ->
    Forall (fun a => pred a <> None) l /\
    (forall a, In a kept <-> In a l /\ pred a = Some false) /\
    (List.length kept <= List.length l)%nat.
Proof.
  induction l as [|a rest IH]; simpl; intros kept Hrun.
  - inversion Hrun; subst. split; [constructor|]. split; [|simpl; lia].
    intros a. simpl. tauto.
  - destruct (remove_copy_if_defined pred rest) as [kept'|];
      [|destruct (pred a) as [[|]|]; discriminate].
    destruct (IH kept' eq_refl) as [Hall [Hin Hlen]].
    destruct (pred a) as [[|]|] eqn:Hpred; [| |discriminate];
      inversion Hrun; subst.
    + split; [constructor; [congruence|exact Hall]|].
      split; [|lia].
      intros b. rewrite Hin. split.
      * intros [Hb Hp]. auto.
      * intros [[Hb|Hb] Hp]; [subst b; congruence|auto].
    + split; [constructor; [congruence|exact Hall]|].
      split; [|simpl; lia].
      intros b. simpl. rewrite Hin. split.
      * intros [Hb|[Hb Hp]]; [subst b; auto|auto].
      * intros [[Hb|Hb] Hp]; [left; exact Hb|right; auto].
Qed.

Lemma remove_copy_if_defined_total {A : Type} (pred : A -> option bool) :
  forall l : list A,
    Forall (fun a => pred a <> None) l ->
    exists kept, remove_copy_if_defined pred l = Some kept.
Proof.
  induction l as [|a rest IH]; simpl; intros Hall.
  - eexists. reflexivity.
  - inversion Hall as [|? ? Ha Hrest]; subst.
    destruct (IH Hrest) as [kept Hkept]. rewrite Hkept.
    destruct (pred a) as [[|]|]; [eexists; reflexivity..|contradiction].
Qed.

Lemma transform_defined_some {A B : Type} (f : A -> option B) :
  forall (l : list A) (bs : list B),
    transform_defined f l = Some bs ->
    Forall (fun a => f a <> None) l /\
    (forall b, In b bs <-> exists a, In a l /\ f a = Some b) /\
    List.length bs = List.length l.
Proof.
  induction l as [|a rest IH]; simpl; intros bs Hrun.
  - inversion Hrun; subst. split; [constructor|]. split; [|reflexivity].
    intros b. simpl. split; [intros []|intros [a [[] _]]].
  - destruct (f a) as [b0|] eqn:Hf; [|discriminate].
    destruct (transform_defined f rest) as [bs'|]; [|discriminate].
    inversion Hrun; subst.
    destruct (IH bs' eq_refl) as [Hall [Hin Hlen]].
    split; [constructor; [congruence|exact Hall]|].
    split; [|simpl; lia].
    intros b. simpl. rewrite Hin. split.
    + intros [Hb|[a' [Ha' Hfa']]].
      * subst b. exists a. auto.
      * exists a'. auto.
    + intros [a' [[Ha'|Ha'] Hfa']].
      * subst a'. left. congruence.
      * right. exists a'. auto.
Qed.

Lemma transform_defined_total {A B : Type} (f : A -> option B) :
  forall l : list A,
    Forall (fun a => f a <> None) l ->
    exists bs, transform_defined f l = Some bs.
Proof.
  induction l as [|a rest IH]; simpl; intros Hall.
  - eexists. reflexivity.
  - inversion Hall as [|? ? Ha Hrest]; subst.
    destruct (IH Hrest) as [bs Hbs]. rewrite Hbs.
    destruct (f a); [eexists; reflexivity|contradiction].
Qed.

(** The steps of the selection, when all of them are defined. *)
Lemma selectMatches_steps
    (forward_match_lists reverse_match_lists : list MatchResultList)
    (ratio : double) (matches : MatchList) :
  selectMatches forward_match_lists reverse_match_lists ratio
  = Some matches ->
  exists forward_distinctive reverse_distinctive forward_matches
         reverse_matches,
    remove_copy_if_defined (fun l => isNotDistinctive l ratio)
      forward_match_lists = Some forward_distinctive /\
    remove_copy_if_defined (fun l => isNotDistinctive l ratio)
      reverse_match_lists = Some reverse_distinctive /\
    transform_defined extractFirstMatch forward_distinctive
    = Some forward_matches /\
    transform_defined extractFirstMatch reverse_distinctive
    = Some reverse_matches /\
    matches
    = List.filter
        (fun m =>
           negb (IsInconsistent_call (IsInconsistent_new reverse_matches) m))
        forward_matches.
Proof.
  unfold selectMatches.
  destruct (remove_copy_if_defined _ forward_match_lists) as [fd|];
    [|discriminate].
  destruct (remove_copy_if_defined _ reverse_match_lists) as [rd|];
    [|discriminate].
  destruct (transform_defined extractFirstMatch fd) as [fm|] eqn:Hfm;
    [|discriminate].
  destruct (transform_defined extractFirstMatch rd) as [rm|] eqn:Hrm;
    [|discriminate].
  intros Hrun. inversion Hrun; subst.
  exists fd, rd, fm, rm. repeat split; assumption || reflexivity.
Qed.

(** X14.  The selection reads two entries of every list that the matcher
    returned, in either direction: it is defined exactly when every such
    list has at least two entries. *)
Theorem selectMatches_needs_two_neighbours
    (forward_match_lists reverse_match_lists : list MatchResultList)
    (ratio : double) :
  (exists matches,
     selectMatches forward_match_lists reverse_match_lists ratio
     = Some matches) <->
  (forall l, In l forward_match_lists \/ In l reverse_match_lists ->
     (2 <= List.length l)%nat).
Proof.
  split.
  - intros [matches Hrun].
    destruct (selectMatches_steps _ _ _ _ Hrun)
      as [fd [rd [fm [rm [Hfd [Hrd _]]]]]].
    apply remove_copy_if_defined_some in Hfd, Hrd.
    destruct Hfd as [Hf _]. destruct Hrd as [Hr _].
    rewrite Forall_forall in Hf, Hr.
    intros l [Hl|Hl]; apply (isNotDistinctive_defined l ratio); auto.
  - intros Hlong.
    assert (Hdefined : forall ls : list MatchResultList,
              (forall l, In l ls -> (2 <= List.length l)%nat) ->
              exists firsts kept,
                remove_copy_if_defined (fun l => isNotDistinctive l ratio) ls
                = Some kept /\
                transform_defined extractFirstMatch kept = Some firsts).
    { intros ls Hls.
      destruct (remove_copy_if_defined_total
                  (fun l => isNotDistinctive l ratio) ls) as [kept Hkept].
      { apply Forall_forall. intros l Hl.
        apply isNotDistinctive_defined, Hls, Hl. }
      destruct (transform_defined_total extractFirstMatch kept)
        as [firsts Hfirsts].
      { apply remove_copy_if_defined_some in Hkept.
        destruct Hkept as [_ [Hin _]].
        apply Forall_forall. intros l Hl. apply Hin in Hl.
        destruct Hl as [Hl _]. specialize (Hls l Hl).
        destruct l as [|first rest]; simpl in *; [lia|discriminate]. }
      exists firsts, kept. auto. }
    destruct (Hdefined forward_match_lists) as [fm [fd [Hfd Hfm]]];
      [intros l Hl; apply Hlong; left; exact Hl|].
    destruct (Hdefined reverse_match_lists) as [rm [rd [Hrd Hrm]]];
      [intros l Hl; apply Hlong; right; exact Hl|].
    unfold selectMatches. rewrite Hfd, Hrd, Hfm, Hrm.
    eexists. reflexivity.
Qed.

(** X15.  Every match that is selected is mutual and distinctive in both
    directions: it is the first entry of a forward list that passed the
    ratio test, and the same two indices the other way round are the first
    entry of a reverse list that passed it.  Nothing is selected that the
    forward lists do not offer, and nothing at all without reverse
    lists. *)
Theorem selected_matches_are_mutual
    (forward_match_lists reverse_match_lists : list MatchResultList)
    (ratio : double) (matches : MatchList) :
  selectMatches forward_match_lists reverse_match_lists ratio
  = Some matches ->
  (forall m, In m matches ->
     exists fl rl,
       In fl forward_match_lists /\ In rl reverse_match_lists /\
       isNotDistinctive fl ratio = Some false /\
       isNotDistinctive rl ratio = Some false /\
       extractFirstMatch fl = Some m /\
       extractFirstMatch rl = Some (snd m, fst m)) /\
  (List.length matches <= List.length forward_match_lists)%nat /\
  (reverse_match_lists = [] -> matches = []).
Proof.
  intros Hrun.
  destruct (selectMatches_steps _ _ _ _ Hrun)
    as [fd [rd [fm [rm [Hfd [Hrd [Hfm [Hrm Hmatches]]]]]]]].
  apply remove_copy_if_defined_some in Hfd, Hrd.
  destruct Hfd as [_ [Hfd Hfdlen]]. destruct Hrd as [_ [Hrd _]].
  apply transform_defined_some in Hfm, Hrm.
  destruct Hfm as [_ [Hfm Hfmlen]]. destruct Hrm as [_ [Hrm _]].
  assert (Hmutual : forall m, In m matches ->
            exists fl rl,
              In fl forward_match_lists /\ In rl reverse_match_lists /\
              isNotDistinctive fl ratio = Some false /\
              isNotDistinctive rl ratio = Some false /\
              extractFirstMatch fl = Some m /\
              extractFirstMatch rl = Some (snd m, fst m)).
  { intros m Hm. rewrite Hmatches in Hm. apply filter_In in Hm.
    destruct Hm as [Hm Hcons]. apply negb_true_iff in Hcons.
    apply (IsInconsistent_call_first rm m) in Hcons.
    apply find_some in Hcons. destruct Hcons as [Hback _].
    apply Hfm in Hm. destruct Hm as [fl [Hfl Hfirst]].
    apply Hrm in Hback. destruct Hback as [rl [Hrl Hrfirst]].
    apply Hfd in Hfl. apply Hrd in Hrl.
    exists fl, rl. tauto. }
  split; [exact Hmutual|]. split.
  - rewrite Hmatches.
    apply Nat.le_trans with (List.length fm); [apply filter_length_le|].
    rewrite Hfmlen. exact Hfdlen.
  - intros Hnone. destruct matches as [|m rest]; [reflexivity|].
    destruct (Hmutual m (or_introl eq_refl)) as [_ [rl [_ [Hrl _]]]].
    subst reverse_match_lists. destruct Hrl.
Qed.

Lemma selected_matches_are_mutual_witness :
  selectMatches Neighbours.forward Neighbours.reverse Neighbours.threshold
  = Some [(0%Z, 1%Z)] /\
  (List.length [(0%Z, 1%Z)] <= List.length Neighbours.forward)%nat.
Proof.
  assert (Hrun : selectMatches Neighbours.forward Neighbours.reverse Neighbours.threshold
                 = Some [(0%Z, 1%Z)]) by (vm_compute; reflexivity).
  split; [exact Hrun|].
  apply (selected_matches_are_mutual _ _ _ _ Hrun).
Defined.

(** ** Neighbours at distance zero *)

Lemma eqb_zero_is_zero (x : double) :
  (x =? 0)%float = true -> exists s, Prim2SF x = S754_zero s.
Proof.
  rewrite eqb_spec. change (Prim2SF 0%float) with (S754_zero false).
  destruct (Prim2SF x) as [s|s| |s m e]; try destruct s; simpl;
    intros Heq; try discriminate; eexists; reflexivity.
Qed.

(** X16.  When the two nearest neighbours of a feature are both at
    distance zero, the feature is not distinctive, whatever the finite
    ratio: the test multiplies and compares without strictness, so it
    neither divides by zero nor lets the pair through. *)
Theorem zero_distances_are_not_distinctive
    (first second : DMatch) (rest : MatchResultList) (ratio : double) :
  (distance first =? 0)%float = true ->
  (distance second =? 0)%float = true ->
  PrimFloat.is_finite ratio = true ->
  isNotDistinctive (first :: second :: rest) ratio = Some true.
Proof.
  intros Hfirst Hsecond Hratio. simpl. f_equal.
  destruct (eqb_zero_is_zero _ Hfirst) as [s1 H1].
  destruct (eqb_zero_is_zero _ Hsecond) as [s2 H2].
  rewrite leb_spec, mul_spec, H1, H2.
  unfold PrimFloat.is_finite, PrimFloat.is_nan, PrimFloat.is_infinity
    in Hratio.
  apply negb_true_iff, orb_false_iff in Hratio.
  destruct Hratio as [Hnan Hinf]. apply negb_false_iff in Hnan.
  rewrite eqb_spec in Hnan. rewrite eqb_spec, abs_spec in Hinf.
  change (Prim2SF infinity) with (S754_infinity false) in Hinf.
  destruct (Prim2SF ratio) as [s|s| |s m e]; simpl in *;
    try discriminate; reflexivity.
Qed.

Lemma zero_distances_are_not_distinctive_witness :
  isNotDistinctive Neighbours.duplicates Neighbours.threshold = Some true.
Proof.
  apply (zero_distances_are_not_distinctive _ _ [] Neighbours.threshold);
    vm_compute; reflexivity.
Defined.

(** * Tolerances *)

(** X17.  [toleranceIsOk] compares strictly: with a tolerance that is zero
    or negative it accepts no pair of values, not even two equal ones. *)
Theorem toleranceIsOk_rejects_all_without_positive_tolerance
    (x y epsilon : double) :
  (epsilon <=? 0)%float = true -> toleranceIsOk x y epsilon = false.
Proof.
  unfold toleranceIsOk. rewrite leb_spec, ltb_spec, abs_spec.
  change (Prim2SF 0%float) with (S754_zero false).
  destruct (Prim2SF (x - y)%float) as [s|s| |s m e];
    destruct (Prim2SF epsilon) as [t|t| |t n f];
    try destruct s; try destruct t; simpl;
    intros Hle; try discriminate; reflexivity.
Qed.

Lemma toleranceIsOk_rejects_all_without_positive_tolerance_witness :
  toleranceIsOk 1%float 1%float 0%float = false.
Proof.
  apply toleranceIsOk_rejects_all_without_positive_tolerance.
  vm_compute. reflexivity.
Defined.
